(** * ERP order dashboard: normalisation, filtering and chart transforms

    A shallow embedding of [interactive_dashboard.py].  A pandas DataFrame is
    a list of column names together with a list of rows; a row is a finite
    map from column names to cells, and a key that is absent from the row is
    the missing value (NaN / NaT).  Python exceptions are the [Raise] branch
    of a small error monad.  Numbers are exact integers (amounts in minor
    units): rounding of binary floating point is outside the model. *)

From stdpp Require Import gmap strings list sorting.
From Stdlib Require Import QArith Lqa.
From Stdlib Require OrderedTypeEx.

Local Open Scope string_scope.
Local Open Scope Z_scope.

(** ** Cells, rows and frames *)

Record Timestamp := { ts_year : Z; ts_month : Z; ts_day : Z }.

Inductive Cell :=
| VStr (s : string)
| VNum (n : Z)
| VDate (t : Timestamp).

(** A value of a Series: [None] is NaN (NaT for a datetime column). *)
Abbreviation Val := (option Cell).

#[global] Instance Timestamp_eq_dec : EqDecision Timestamp.
Proof. solve_decision. Defined.
#[global] Instance Cell_eq_dec : EqDecision Cell.
Proof. solve_decision. Defined.

Abbreviation Row := (gmap string Cell).

Record DataFrame := { columns : list string; rows : list Row }.

(** ** Exceptions *)

Inductive Exn :=
| KeyError (key : string)
| TypeError
| ValueError
| IndexError
| AttributeError.

Inductive Result (A : Type) :=
| OK (a : A)
| Raise (e : Exn).
Arguments OK {A} a.
Arguments Raise {A} e.

Definition rbind {A B} (m : Result A) (k : A -> Result B) : Result B :=
  match m with
  | OK a => k a
  | Raise e => Raise e
  end.

Definition rmap {A B} (f : A -> B) (m : Result A) : Result B :=
  rbind m (fun a => OK (f a)).

Notation "'let*' x := m 'in' k" := (rbind m (fun x => k))
  (at level 10, x name, m at level 100, k at level 200).

(** [for x in l: ...] threading exceptions. *)
Fixpoint rmapM {A B} (f : A -> Result B) (l : list A) : Result (list B) :=
  match l with
  | [] => OK []
  | x :: l' => let* y := f x in let* ys := rmapM f l' in OK (y :: ys)
  end.

(** ** Series and column access *)

Definition has_column (c : string) (df : DataFrame) : bool :=
  bool_decide (c ∈ columns df).

(** The values of column [c], row by row. *)
Definition column (c : string) (df : DataFrame) : list Val :=
  (fun r : Row => r !! c) <$> rows df.

(** [df[c]]: a KeyError when the frame has no such column. *)
Definition get_col (df : DataFrame) (c : string) : Result (list Val) :=
  if has_column c df then OK (column c df) else Raise (KeyError c).

Definition set_cell (c : string) (r : Row) (v : Val) : Row :=
  match v with
  | Some x => <[c := x]> r
  | None => delete c r
  end.

(** [df[c] = s]: overwrites the column, or appends a new one. *)
Definition set_col (df : DataFrame) (c : string) (s : list Val) : DataFrame :=
  {| columns := if has_column c df then columns df else columns df ++ [c];
     rows := zip_with (set_cell c) (rows df) s |}.

(** [s.fillna(other)] with a Series argument. *)
Definition fillna (s other : list Val) : list Val :=
  zip_with (fun a b => match a with Some _ => a | None => b end) s other.

(** [s.fillna(v)] with a scalar. *)
Definition fillna_const (s : list Val) (v : Cell) : list Val :=
  (fun a : Val => match a with Some _ => a | None => Some v end) <$> s.

(** [s.map(d)] with a dict: a value that is not a key becomes NaN. *)
Definition map_val (d : gmap string string) (a : Val) : Val :=
  match a with
  | Some (VStr k) => VStr <$> d !! k
  | _ => None
  end.

Definition series_map (d : gmap string string) (s : list Val) : list Val :=
  map_val d <$> s.

(** [a * b] on two Series; NaN propagates.  A non-numeric operand is
    modelled as a TypeError. *)
Definition mul_val (a b : Val) : Result Val :=
  match a, b with
  | None, _ | _, None => OK None
  | Some (VNum x), Some (VNum y) => OK (Some (VNum (x * y)))
  | _, _ => Raise TypeError
  end.

Fixpoint series_mul (s t : list Val) : Result (list Val) :=
  match s, t with
  | a :: s', b :: t' =>
      let* v := mul_val a b in let* vs := series_mul s' t' in OK (v :: vs)
  | _, _ => OK []
  end.

(** [.dt.year], [.dt.month], [.dt.quarter] on a datetime column. *)
Definition dt_year (v : Val) : Val :=
  match v with Some (VDate t) => Some (VNum (ts_year t)) | _ => None end.
Definition dt_month (v : Val) : Val :=
  match v with Some (VDate t) => Some (VNum (ts_month t)) | _ => None end.
Definition quarter_of_month (m : Z) : Z := (m - 1) / 3 + 1.
Definition dt_quarter (v : Val) : Val :=
  match v with
  | Some (VDate t) => Some (VNum (quarter_of_month (ts_month t)))
  | _ => None
  end.

(** ** The province to region table *)

Definition REGION_MAPPING_items : list (string * string) :=
  [ ("北京", "华北"); ("天津", "华北"); ("河北省", "华北"); ("山西省", "华北");
    ("内蒙古自治区", "华北");
    ("辽宁省", "东北"); ("吉林省", "东北"); ("黑龙江省", "东北");
    ("上海", "华东"); ("江苏省", "华东"); ("浙江省", "华东"); ("安徽省", "华东");
    ("福建省", "华东"); ("江西省", "华东"); ("山东省", "华东");
    ("河南省", "华中"); ("湖北省", "华中"); ("湖南省", "华中");
    ("广东省", "华南"); ("广西壮族自治区", "华南"); ("海南省", "华南");
    ("重庆", "西南"); ("四川省", "西南"); ("贵州省", "西南"); ("云南省", "西南");
    ("西藏自治区", "西南");
    ("陕西省", "西北"); ("甘肃省", "西北"); ("青海省", "西北");
    ("宁夏回族自治区", "西北"); ("新疆维吾尔自治区", "西北") ].

Definition REGION_MAPPING : gmap string string :=
  list_to_map REGION_MAPPING_items.

Definition OTHER : string := "其他".

(** The seven region names that occur on the right of the table. *)
Definition region_names : list string :=
  ["华北"; "东北"; "华东"; "华中"; "华南"; "西南"; "西北"].

(** ** load_data *)

Definition date_candidates : list string :=
  ["payment_date"; "order_date"; "create_time"; "created_at"; "date"].

Definition amount_candidates : list string :=
  ["paid_amount"; "product_amount"; "amount"; "total_amount"].

(** [next((c for c in candidates if c in df.columns), None)] *)
Definition first_present (candidates : list string) (df : DataFrame)
  : option string :=
  List.find (fun c => has_column c df) candidates.

(** The outcome of [load_data]: the normalised frame, or [None] after the
    error message has been shown. *)
Inductive Loaded :=
| Frame (df : DataFrame)
| LoadFailed (e : Exn).

Section Load.

(** [pd.to_datetime(_, errors='coerce')] on one cell: pandas' parser is
    taken as given; a cell it cannot parse becomes NaT. *)
Variable to_datetime : Cell -> option Timestamp.

Definition to_datetime_val (v : Val) : Val :=
  match v with
  | Some c => VDate <$> to_datetime c
  | None => None
  end.

Definition resolve_region (df : DataFrame) : Result DataFrame :=
  let* df1 :=
    if has_column "province" df then
      let* prov := get_col df "province" in
      if has_column "region" df then
        let* reg := get_col df "region" in
        OK (set_col df "region"
              (fillna reg (series_map REGION_MAPPING prov)))
      else
        OK (set_col df "region" (series_map REGION_MAPPING prov))
    else OK df in
  let* reg := get_col df1 "region" in
  OK (set_col df1 "region" (fillna_const reg (VStr OTHER))).

Definition coerce_date_column (df : DataFrame) (col : string) : DataFrame :=
  if has_column col df then
    set_col df col (to_datetime_val <$> column col df)
  else df.

Definition resolve_dates (df : DataFrame) : DataFrame :=
  let df := foldl coerce_date_column df date_candidates in
  match first_present date_candidates df with
  | Some primary_date =>
      let df := set_col df "_primary_date" (column primary_date df) in
      let d := column "_primary_date" df in
      let df := set_col df "year" (dt_year <$> d) in
      let df := set_col df "month" (dt_month <$> d) in
      set_col df "quarter" (dt_quarter <$> d)
  | None => df
  end.

Definition resolve_amount (df : DataFrame) : Result DataFrame :=
  match first_present amount_candidates df with
  | None =>
      if has_column "quantity" df && has_column "unit_price" df then
        let* q := get_col df "quantity" in
        let* p := get_col df "unit_price" in
        let* a := series_mul q p in
        OK (set_col df "_amount" a)
      else OK df
  | Some amount_col =>
      let* a := get_col df amount_col in
      OK (set_col df "_amount" a)
  end.

Definition resolve_quantity (df : DataFrame) : Result DataFrame :=
  if has_column "quantity" df then
    let* q := get_col df "quantity" in
    OK (set_col df "_quantity" q)
  else OK df.

Definition normalize (df : DataFrame) : Result DataFrame :=
  let* df := resolve_region df in
  let* df := resolve_amount (resolve_dates df) in
  resolve_quantity df.

(** [read_excel] is the outcome of [pd.read_excel(file_path)]; the
    [try ... except Exception] turns every exception into [None]. *)
Definition load_data (read_excel : Result DataFrame) : Loaded :=
  match let* df := read_excel in normalize df with
  | OK df => Frame df
  | Raise e => LoadFailed e
  end.

End Load.

(** ** Python's [sorted], [unique], [dropna], [isin] *)

Inductive Kind := KStr | KNum | KDate.

#[global] Instance Kind_eq_dec : EqDecision Kind.
Proof. solve_decision. Defined.

(** NaN is a float. *)
Definition kind_of (v : Val) : Kind :=
  match v with
  | Some (VStr _) => KStr
  | Some (VDate _) => KDate
  | Some (VNum _) | None => KNum
  end.

Definition ts_ltb (a b : Timestamp) : bool :=
  (ts_year a <? ts_year b)
  || ((ts_year a =? ts_year b)
      && ((ts_month a <? ts_month b)
          || ((ts_month a =? ts_month b) && (ts_day a <? ts_day b)))).

(** [a < b] in Python, for two values of one kind; every comparison with
    NaN is false. *)
Definition py_lt (a b : Val) : bool :=
  match a, b with
  | Some (VNum x), Some (VNum y) => x <? y
  | Some (VStr s), Some (VStr t) => String.ltb s t
  | Some (VDate s), Some (VDate t) => ts_ltb s t
  | _, _ => false
  end.

(** [a] may stay in front of [b]. *)
Definition py_le (a b : Val) : Prop := py_lt b a = false.

#[global] Instance py_le_dec : RelDecision py_le.
Proof. intros a b. unfold py_le. apply _. Defined.

Definition same_kind (l : list Val) : bool :=
  match l with
  | [] => true
  | x :: l' => forallb (fun y => bool_decide (kind_of y = kind_of x)) l'
  end.

(** [sorted(l)]: comparing a [str] with a number or a timestamp raises
    TypeError, and a sort of two or more values of different kinds has to
    make such a comparison.  With NaN in the list Python's order depends on
    the algorithm; the model fixes the one of a merge sort. *)
Definition sorted (l : list Val) : Result (list Val) :=
  if same_kind l then OK (merge_sort py_le l) else Raise TypeError.

(** [s.unique()]: distinct values in order of first appearance. *)
Definition unique {A} `{EqDecision A} (l : list A) : list A :=
  reverse (remove_dups (reverse l)).

Definition dropna (l : list Val) : list Val :=
  filter (fun v : Val => is_Some v) l.

Definition isin (v : Val) (values : list Val) : bool :=
  bool_decide (v ∈ values).

(** ** sidebar_filters *)

(** What the user has picked in each multiselect; [None] while the widget
    is untouched and still shows its default. *)
Record Sidebar := {
  pick_years : option (list Val);
  pick_regions : option (list Val);
  pick_products : option (list Val)
}.

Definition multiselect (pick : option (list Val)) (options default : list Val)
  : list Val :=
  match pick with
  | Some chosen => chosen
  | None => default
  end.

(** [if selected:] on a value that is [None] or a list. *)
Definition truthy (selected : option (list Val)) : bool :=
  match selected with
  | Some (_ :: _) => true
  | _ => false
  end.

(** [df[df[col].isin(selected)]] *)
Definition filter_isin (col : string) (selected : list Val) (df : DataFrame)
  : Result DataFrame :=
  let* _ := get_col df col in
  OK {| columns := columns df;
        rows := filter (fun r : Row => isin (r !! col) selected) (rows df) |}.

Definition apply_selection (col : string) (selected : option (list Val))
    (df : DataFrame) : Result DataFrame :=
  if truthy selected then filter_isin col (default [] selected) df
  else OK df.

Definition year_options (df : DataFrame) : Result (list Val) :=
  let* y := get_col df "year" in sorted (unique (dropna y)).

Definition region_options (df : DataFrame) : Result (list Val) :=
  let* r := get_col df "region" in sorted (unique r).

Definition product_options (df : DataFrame) : Result (list Val) :=
  let* p := get_col df "product_name" in sorted (unique (dropna p)).

Definition default_products (products : list Val) : list Val :=
  if (10 <? length products)%nat then take 10 products else products.

Definition select_years (ui : Sidebar) (df : DataFrame)
  : Result (option (list Val)) :=
  if has_column "year" df then
    let* years := year_options df in
    OK (Some (multiselect (pick_years ui) years years))
  else OK None.

Definition select_regions (ui : Sidebar) (df : DataFrame)
  : Result (option (list Val)) :=
  let* regions := region_options df in
  OK (Some (multiselect (pick_regions ui) regions regions)).

Definition select_products (ui : Sidebar) (df : DataFrame)
  : Result (option (list Val)) :=
  if has_column "product_name" df then
    let* products := product_options df in
    if (length products <=? 50)%nat then
      OK (Some (multiselect (pick_products ui) products
                  (default_products products)))
    else OK None
  else OK None.

Definition sidebar_filters (ui : Sidebar) (df : DataFrame) : Result DataFrame :=
  let* selected_years := select_years ui df in
  let* selected_regions := select_regions ui df in
  let* selected_products := select_products ui df in
  let* filtered_df := apply_selection "year" selected_years df in
  let* filtered_df := apply_selection "region" selected_regions filtered_df in
  apply_selection "product_name" selected_products filtered_df.

(** ** Aggregation *)

(** One summand of [sum]: NaN is skipped.  A non-numeric cell in a value
    column is modelled as a TypeError. *)
Definition num_of (v : Val) : Result Z :=
  match v with
  | None => OK 0
  | Some (VNum n) => OK n
  | Some _ => Raise TypeError
  end.

Fixpoint series_sum (s : list Val) : Result Z :=
  match s with
  | [] => OK 0
  | v :: s' => let* n := num_of v in let* m := series_sum s' in OK (n + m)
  end.

Definition group_rows (key : string) (g : Val) (df : DataFrame) : list Row :=
  filter (fun r : Row => r !! key = g) (rows df).

Definition group_sum (key value : string) (df : DataFrame) (g : Val)
  : Result (Val * Z) :=
  let* total :=
    series_sum ((fun r : Row => r !! value) <$> group_rows key g df) in
  OK (g, total).

(** [df.groupby(key, as_index=False)[value].sum()]: one row per distinct
    non-missing key, keys in ascending order. *)
Definition groupby_sum (key value : string) (df : DataFrame)
  : Result (list (Val * Z)) :=
  let* k := get_col df key in
  let* _ := get_col df value in
  let* groups := sorted (unique (dropna k)) in
  rmapM (group_sum key value df) groups.

Definition value_desc {A} (a b : A * Z) : Prop := snd b <= snd a.

#[global] Instance value_desc_dec {A} : RelDecision (@value_desc A).
Proof. intros a b. unfold value_desc. apply _. Defined.

(** [.sort_values(value, ascending=False)] *)
Definition sort_values_desc {A} (l : list (A * Z)) : list (A * Z) :=
  merge_sort value_desc l.

(** [max(l)] of a Python list. *)
Definition py_max (l : list Z) : Result Z :=
  match l with
  | [] => Raise ValueError
  | x :: l' => OK (foldl Z.max x l')
  end.

(** [np.linspace(a, b, n, endpoint)] *)
Definition linspace (a b : Q) (n : nat) (endpoint : bool) : list Q :=
  let d := if endpoint then (n - 1)%nat else n in
  (fun i : nat =>
     (a + inject_Z (Z.of_nat i) * ((b - a) / inject_Z (Z.of_nat d)))%Q)
    <$> seq 0 n.

(** ** Drawing primitives *)

Inductive Artist :=
| Rectangle (x y w h : Q) (shade : Q)
| Text (x y : Q) (label : Z)
| Headline (top : Val) (percentage : option Q)
| BarH (label : Val) (value : Z) (shade : Q)
| Plot (xs ys : list Z) (marker : bool)
| SplineCurve (k : nat) (xs ys : list Z) (samples : nat)
| Scatter (xs ys : list Z)
| Bars (label : Val) (xs : list Q) (heights : list Z) (w : Q) (color : nat)
| PolarBar (theta : Q) (radius : Z) (w : Q) (shade : Q).

(** What a plot function hands back: the figure, or [None] after a
    warning has been shown. *)
Inductive Outcome :=
| Drawn (fig : list Artist)
| NoFigure (warning : string).

(** ** plot_regional_gradient_bars *)

Definition quantity_first (df : DataFrame) : string :=
  if has_column "_quantity" df then "_quantity" else "_amount".

Definition amount_first (df : DataFrame) : string :=
  if has_column "_amount" df then "_amount" else "_quantity".

Definition bar_width : Q := 45 # 100.
Definition gradient_steps : nat := 100.
Definition layer_ratios : list Q := linspace 0 1 gradient_steps false.

Definition gradient_bar (i : nat) (qty top : Z) : list Artist :=
  let layer_height := (inject_Z qty / inject_Z (Z.of_nat gradient_steps))%Q in
  ((fun ratio : Q =>
      Rectangle (inject_Z (Z.of_nat i) - bar_width / 2)%Q
                (ratio * inject_Z qty)%Q bar_width layer_height
                ((4 # 10) + ratio * (55 # 100))%Q) <$> layer_ratios)
  ++ [Text (inject_Z (Z.of_nat i))
           (inject_Z qty + inject_Z top * (2 # 100))%Q qty].

(** [region_stats]: per region the summed value, sorted descending. *)
Definition region_stats (df : DataFrame) : Result (list (Val * Z)) :=
  let* agg := groupby_sum "region" (quantity_first df) df in
  OK (sort_values_desc agg).

Definition share (part total : Z) : option Q :=
  if total =? 0 then None
  else Some (inject_Z part / inject_Z total * 100)%Q.

Definition plot_regional_gradient_bars (df : DataFrame) : Result Outcome :=
  let* stats := region_stats df in
  let quantities := snd <$> stats in
  let* bars :=
    rmapM (fun '(i, qty) =>
             let* top := py_max quantities in OK (gradient_bar i qty top))
          (imap pair quantities) in
  let* _ := py_max quantities in
  let total_qty := foldr Z.add 0 quantities in
  match stats with
  | [] => Raise IndexError
  | top_region :: _ =>
      OK (Drawn (concat bars
                 ++ [Headline (fst top_region)
                       (share (snd top_region) total_qty)]))
  end.

(** ** plot_top_products *)

Definition product_column (df : DataFrame) : string :=
  if has_column "product_name" df then "product_name" else "category".

Definition top_products (n : nat) (df : DataFrame) : Result (list (Val * Z)) :=
  let* agg := groupby_sum (product_column df) (quantity_first df) df in
  OK (take n (sort_values_desc agg)).

Definition plot_top_products (df : DataFrame) (n : nat) : Result Outcome :=
  if negb (has_column (product_column df) df) then
    OK (NoFigure "数据中没有产品或类别列")
  else
    let* top := top_products n df in
    let values := snd <$> top in
    let colors := linspace (3 # 10) (9 # 10) (length top) true in
    let bars := zip_with (fun '(p, v) c => BarH p v c) top colors in
    let* labels :=
      rmapM (fun '(i, val) =>
               let* m := py_max values in
               OK (Text (inject_Z val + inject_Z m * (1 # 100))%Q
                        (inject_Z (Z.of_nat i)) val))
            (imap pair values) in
    OK (Drawn (bars ++ labels)).

(** ** plot_monthly_trend *)

(** A calendar month, the value of [.dt.to_period('M')]. *)
Definition Period : Type := Z * Z.

Definition period_le (a b : Period) : Prop :=
  fst a < fst b \/ (fst a = fst b /\ snd a <= snd b).

#[global] Instance period_le_dec : RelDecision period_le.
Proof. intros a b. unfold period_le. apply _. Defined.

(** [.dt.to_period('M')] on a cell of the rows that survived
    [dropna(subset=['_primary_date'])]; a column that does not hold
    datetimes has no [.dt]. *)
Definition to_period (v : Val) : Result Period :=
  match v with
  | Some (VDate t) => OK (ts_year t, ts_month t)
  | _ => Raise AttributeError
  end.

Definition month_of (r : Row) : option Period :=
  match r !! "_primary_date" with
  | Some (VDate t) => Some (ts_year t, ts_month t)
  | _ => None
  end.

Definition month_sum (value : string) (df_month : list Row) (m : Period)
  : Result (Period * Z) :=
  let* total :=
    series_sum ((fun r : Row => r !! value)
                  <$> filter (fun r : Row => month_of r = Some m) df_month) in
  OK (m, total).

(** [monthly]: one bucket per calendar month that has a dated row, in
    calendar order, with the sum of the value column. *)
Definition monthly_buckets (df : DataFrame) : Result (list (Period * Z)) :=
  let value_col := amount_first df in
  let df_month :=
    filter (fun r : Row => is_Some (r !! "_primary_date")) (rows df) in
  let* year_month :=
    rmapM (fun r : Row => to_period (r !! "_primary_date")) df_month in
  let* _ := get_col df value_col in
  rmapM (month_sum value_col df_month)
        (merge_sort period_le (unique year_month)).

Definition smooth_samples : nat := 300.

Definition trend_curve (x y : list Z) : Artist :=
  if (3 <? length x)%nat then
    SplineCurve (Nat.min 3 (length x - 1)) x y smooth_samples
  else Plot x y true.

Definition plot_monthly_trend (df : DataFrame) : Result Outcome :=
  if negb (has_column "_primary_date" df) then
    OK (NoFigure "数据中没有有效的日期列")
  else
    let* monthly := monthly_buckets df in
    if (length monthly <? 2)%nat then
      OK (NoFigure "数据点不足,无法绘制趋势图")
    else
      let x := Z.of_nat <$> seq 0 (length monthly) in
      let y := snd <$> monthly in
      let* labels :=
        rmapM (fun '(xi, yi) =>
                 let* m := py_max y in
                 OK (Text (inject_Z xi)
                          (inject_Z yi + inject_Z m * (3 # 100))%Q yi))
              (zip x y) in
      OK (Drawn (trend_curve x y :: Scatter x y :: labels)).

(** ** plot_quarterly_comparison *)

Definition year_quarter (r : Row) : option (Cell * Cell) :=
  match r !! "year", r !! "quarter" with
  | Some y, Some q => Some (y, q)
  | _, _ => None
  end.

Definition pair_le (a b : Cell * Cell) : Prop :=
  py_lt (Some (fst a)) (Some (fst b)) = true
  \/ (fst a = fst b /\ py_le (Some (snd a)) (Some (snd b))).

#[global] Instance pair_le_dec : RelDecision pair_le.
Proof. intros a b. unfold pair_le. apply _. Defined.

Definition quarter_sum (value : string) (df : DataFrame) (g : Cell * Cell)
  : Result (Cell * Cell * Z) :=
  let* total :=
    series_sum ((fun r : Row => r !! value)
                  <$> filter (fun r : Row => year_quarter r = Some g)
                        (rows df)) in
  OK (g, total).

(** [df.groupby(['year', 'quarter'], as_index=False)[value].sum()]: one row
    per (year, quarter) pair that occurs with both parts present. *)
Definition quarterly_table (df : DataFrame)
  : Result (list (Cell * Cell * Z)) :=
  let value_col := amount_first df in
  let* _ := get_col df "year" in
  let* _ := get_col df "quarter" in
  let* _ := get_col df value_col in
  let groups := unique (omap year_quarter (rows df)) in
  if same_kind (Some ∘ fst <$> groups) && same_kind (Some ∘ snd <$> groups)
  then rmapM (quarter_sum value_col df) (merge_sort pair_le groups)
  else Raise TypeError.

Definition quarter_numbers : list Z := [1; 2; 3; 4].

(** The value for one year and one quarter: the sum of its group, and 0
    when the group does not exist. *)
Definition quarter_value (year_data : list (Cell * Cell * Z)) (q : Z) : Z :=
  match filter (fun g : Cell * Cell * Z => snd (fst g) = VNum q) year_data with
  | g :: _ => snd g
  | [] => 0
  end.

Definition year_values (quarterly : list (Cell * Cell * Z)) (year : Val)
  : list Z :=
  let year_data :=
    filter (fun g : Cell * Cell * Z => Some (fst (fst g)) = year) quarterly in
  quarter_value year_data <$> quarter_numbers.

Definition quarterly_years (quarterly : list (Cell * Cell * Z))
  : Result (list Val) :=
  sorted (unique ((fun g : Cell * Cell * Z => Some (fst (fst g)))
                    <$> quarterly)).

Definition cluster_width (n : nat) : Q :=
  if (1 <? n)%nat then ((8 # 10) / inject_Z (Z.of_nat n))%Q else 4 # 10.

Definition cluster_offset (n i : nat) : Q :=
  if (1 <? n)%nat then
    ((inject_Z (Z.of_nat i) - inject_Z (Z.of_nat n) / 2 + (1 # 2))
     * cluster_width n)%Q
  else 0%Q.

Definition year_cluster (quarterly : list (Cell * Cell * Z)) (n i : nat)
    (year : Val) : list Artist :=
  let values := year_values quarterly year in
  let xs :=
    (fun k : nat => (inject_Z (Z.of_nat k) + cluster_offset n i)%Q)
      <$> seq 0 4 in
  Bars year xs values (cluster_width n) (i mod 4)
  :: ((fun '(x, val) => Text x (inject_Z val) val)
        <$> filter (fun p : Q * Z => 0 < snd p) (zip xs values)).

Definition plot_quarterly_comparison (df : DataFrame) : Result Outcome :=
  if negb (has_column "quarter" df) || negb (has_column "year" df) then
    OK (NoFigure "数据中没有季度信息")
  else
    let* quarterly := quarterly_table df in
    let* years := quarterly_years quarterly in
    if (length years =? 0)%nat then
      OK (NoFigure "没有可用的年度数据")
    else
      OK (Drawn (concat (imap (year_cluster quarterly (length years)) years))).

(** ** plot_rose_chart *)

Definition category_column (df : DataFrame) : string :=
  if has_column "category" df then "category" else "region".

Definition rose_limit : nat := 12.

Definition rose_table (df : DataFrame) : Result (list (Val * Z)) :=
  let* agg := groupby_sum (category_column df) (quantity_first df) df in
  OK (take rose_limit (sort_values_desc agg)).

(** Angles are exact multiples of pi: [2 # n] stands for [2*pi/n]. *)
Definition rose_width (n : nat) : Q := (2 / inject_Z (Z.of_nat n))%Q.

Definition rose_theta (n i : nat) : Q :=
  (inject_Z (Z.of_nat i) * rose_width n)%Q.

Definition rose_bars (agg : list (Val * Z)) : list Artist :=
  let n := length agg in
  let colors := linspace (1 # 10) (9 # 10) n true in
  imap (fun i '(g, c) => PolarBar (rose_theta n i) (snd g) (rose_width n) c)
       (zip agg colors).

Definition plot_rose_chart (df : DataFrame) : Result Outcome :=
  let* agg := rose_table df in
  let values := snd <$> agg in
  match values with
  | [] => OK (NoFigure "没有足够的数据绘制玫瑰图")
  | _ :: _ =>
      let* _ := py_max values in
      OK (Drawn (rose_bars agg))
  end.

(** ** main *)

(** The table under the regional chart:
    [groupby('region').agg({qty_col: 'sum', 'region': 'count'})], sorted by
    the sum, descending.  An entry is (region, sum, number of orders). *)
Definition region_row (df : DataFrame) (g : Val * Z) : Val * Z * nat :=
  (fst g, snd g, length (group_rows "region" (fst g) df)).

Definition table_desc (a b : Val * Z * nat) : Prop := snd (fst b) <= snd (fst a).

#[global] Instance table_desc_dec : RelDecision table_desc.
Proof. intros a b. unfold table_desc. apply _. Defined.

Definition region_table (df : DataFrame) : Result (list (Val * Z * nat)) :=
  let* agg := groupby_sum "region" (quantity_first df) df in
  OK (merge_sort table_desc (region_row df <$> agg)).

(** [df[c].sum()] shown as a metric only when the column exists. *)
Definition metric_sum (c : string) (df : DataFrame) : Result (option Z) :=
  if has_column c df then
    let* s := get_col df c in
    let* total := series_sum s in
    OK (Some total)
  else OK None.

Definition preview_rows : nat := 1000.

(** What one run of the script puts on the page.  The download button,
    whose file is the view written as text, is left out. *)
Record Page := {
  total_records : nat;
  total_amount : option Z;
  total_quantity : option Z;
  regional_figure : Outcome;
  regional_table : list (Val * Z * nat);
  product_figure : Outcome;
  trend_figure : Outcome;
  quarterly_figure : Outcome;
  rose_figure : Outcome;
  raw_preview : list Row
}.

Inductive Session :=
| Stopped
| Rendered (page : Page).

Section Main.

(** The date parser behind [load_data], as before. *)
Variable to_datetime : Cell -> option Timestamp.

(** [ui] is the state of the sidebar and [n] the value of the top-N
    slider.  An exception of a plot function is not caught. *)
Definition main (read_excel : Result DataFrame) (ui : Sidebar) (n : nat)
  : Result Session :=
  match load_data to_datetime read_excel with
  | LoadFailed _ => OK Stopped
  | Frame df =>
      let* filtered_df := sidebar_filters ui df in
      let* amount := metric_sum "_amount" filtered_df in
      let* quantity := metric_sum "_quantity" filtered_df in
      let* fig1 := plot_regional_gradient_bars filtered_df in
      let* table := region_table filtered_df in
      let* fig2 := plot_top_products filtered_df n in
      let* fig3 := plot_monthly_trend filtered_df in
      let* fig4 := plot_quarterly_comparison filtered_df in
      let* fig5 := plot_rose_chart filtered_df in
      OK (Rendered
            {| total_records := length (rows filtered_df);
               total_amount := amount;
               total_quantity := quantity;
               regional_figure := fig1;
               regional_table := table;
               product_figure := fig2;
               trend_figure := fig3;
               quarterly_figure := fig4;
               rose_figure := fig5;
               raw_preview := take preview_rows (rows filtered_df) |})
  end.

End Main.

(** ** The refund fields of a generated order
    ([generate_erp_order_data.py], [generate_order_data]) *)

Definition REFUND_STATUSES : list string :=
  ["无退款"; "无退款"; "无退款"; "无退款"; "无退款"; "无退款"; "无退款";
   "无退款"; "部分退款"; "全额退款"].

Section Refund.

(** [random.randint(a, b)], an integer between [a] and [b]. *)
Variable randint : Z -> Z -> Z.

(** (registered_quantity, actual_refund_quantity) *)
Definition refund_quantities (refund_status : string) (quantity : Z) : Z * Z :=
  if decide (refund_status = "无退款") then (0, 0)
  else if decide (refund_status = "部分退款") then
    let registered_quantity := randint 1 quantity in
    (registered_quantity, registered_quantity)
  else (quantity, quantity).

End Refund.

(** * Specification-side definitions and sample data *)

(** The region a row ends up with, from what the raw row holds. *)
Definition region_of (with_region with_province : bool) (r : Row) : Cell :=
  let given := if with_region then r !! "region" else None in
  let mapped :=
    if with_province then map_val REGION_MAPPING (r !! "province") else None in
  match given, mapped with
  | Some c, _ => c
  | None, Some c => c
  | None, None => VStr OTHER
  end.

(** The provincial-level units of China, written the way the keys of the
    table are: 4 municipalities, 22 provinces and 5 autonomous regions on
    the mainland, then Taiwan and the two special administrative regions. *)
Definition municipalities : list string := ["北京"; "天津"; "上海"; "重庆"].

Definition mainland_provinces : list string :=
  [ "河北省"; "山西省"; "辽宁省"; "吉林省"; "黑龙江省"; "江苏省"; "浙江省";
    "安徽省"; "福建省"; "江西省"; "山东省"; "河南省"; "湖北省"; "湖南省";
    "广东省"; "海南省"; "四川省"; "贵州省"; "云南省"; "陕西省"; "甘肃省";
    "青海省" ].

Definition autonomous_regions : list string :=
  [ "内蒙古自治区"; "广西壮族自治区"; "西藏自治区"; "宁夏回族自治区";
    "新疆维吾尔自治区" ].

Definition mainland_units : list string :=
  municipalities ++ mainland_provinces ++ autonomous_regions.

Definition special_units : list string :=
  ["台湾省"; "香港特别行政区"; "澳门特别行政区"].

Definition provincial_units : list string := mainland_units ++ special_units.

(** Sample tables used to run the definitions. *)
Definition no_parse : Cell -> option Timestamp := fun _ => None.

Definition day_parse : Cell -> option Timestamp :=
  fun c => match c with VDate t => Some t | _ => None end.

Definition provinces_only : DataFrame :=
  {| columns := ["province"; "quantity"];
     rows := [ {[ "province" := VStr "广东省"; "quantity" := VNum 2 ]};
               {[ "province" := VStr "台湾省"; "quantity" := VNum 1 ]};
               {[ "quantity" := VNum 5 ]} ] |}.

Definition orders_only : DataFrame :=
  {| columns := ["order_id"; "quantity"; "unit_price"];
     rows := [ {[ "order_id" := VNum 1; "quantity" := VNum 2;
                  "unit_price" := VNum 1990 ]} ] |}.

(** The three filterable dimensions of the sidebar. *)
Inductive Dimension := DYear | DRegion | DProduct.

Definition dim_column (D : Dimension) : string :=
  match D with
  | DYear => "year"
  | DRegion => "region"
  | DProduct => "product_name"
  end.

(** The values the sidebar offers for a dimension: all it has observed. *)
Definition options (D : Dimension) (df : DataFrame) : Result (list Val) :=
  match D with
  | DYear => year_options df
  | DRegion => region_options df
  | DProduct => product_options df
  end.

(** The sidebar with the selection of one dimension replaced. *)
Definition with_pick (D : Dimension) (pick : option (list Val))
    (ui : Sidebar) : Sidebar :=
  match D with
  | DYear => {| pick_years := pick; pick_regions := pick_regions ui;
                pick_products := pick_products ui |}
  | DRegion => {| pick_years := pick_years ui; pick_regions := pick;
                  pick_products := pick_products ui |}
  | DProduct => {| pick_years := pick_years ui;
                   pick_regions := pick_regions ui; pick_products := pick |}
  end.

Definition untouched : Sidebar :=
  {| pick_years := None; pick_regions := None; pick_products := None |}.

(** Two orders, the second with a payment date that does not parse. *)
Definition undated_orders : DataFrame :=
  {| columns := ["province"; "payment_date"; "quantity"];
     rows := [ {[ "province" := VStr "广东省";
                  "payment_date" := VDate {| ts_year := 2024; ts_month := 3;
                                             ts_day := 7 |};
                  "quantity" := VNum 2 ]};
               {[ "province" := VStr "北京";
                  "payment_date" := VStr "n/a";
                  "quantity" := VNum 1 ]} ] |}.

(** Two orders whose payment dates both parse. *)
Definition dated_orders : DataFrame :=
  {| columns := ["province"; "payment_date"; "quantity"];
     rows := [ {[ "province" := VStr "广东省";
                  "payment_date" := VDate {| ts_year := 2024; ts_month := 3;
                                             ts_day := 7 |};
                  "quantity" := VNum 2 ]};
               {[ "province" := VStr "北京";
                  "payment_date" := VDate {| ts_year := 2023; ts_month := 11;
                                             ts_day := 30 |};
                  "quantity" := VNum 1 ]} ] |}.

(** [total] is the sum of column [field] over the rows of one group. *)
Definition sums_field (field : string) (group : list Row) (total : Z) : Prop :=
  series_sum ((fun r : Row => r !! field) <$> group) = OK total.

(** The value-field policy in the words of the specification: the volume
    charts prefer the quantity, the temporal charts prefer the amount.  The
    charts themselves use [quantity_first] and [amount_first]. *)
Definition volume_field (df : DataFrame) : string :=
  if has_column "_quantity" df then "_quantity" else "_amount".

Definition revenue_field (df : DataFrame) : string :=
  if has_column "_amount" df then "_amount" else "_quantity".

(** A normalised frame of four orders with both value columns. *)
Definition order (region product : string) (y m d amount quantity : Z) : Row :=
  {[ "region" := VStr region; "product_name" := VStr product;
     "_primary_date" := VDate {| ts_year := y; ts_month := m; ts_day := d |};
     "year" := VNum y; "month" := VNum m;
     "quarter" := VNum (quarter_of_month m);
     "_amount" := VNum amount; "_quantity" := VNum quantity ]}.

Definition order_columns : list string :=
  ["region"; "product_name"; "_primary_date"; "year"; "month"; "quarter";
   "_amount"; "_quantity"].

Definition four_orders : DataFrame :=
  {| columns := order_columns;
     rows := [ order "华南" "连衣裙" 2024 1 15 10000 2;
               order "华南" "羽绒服" 2024 2 3 5000 1;
               order "华北" "连衣裙" 2024 2 20 3000 3;
               order "华北" "运动裤" 2023 11 11 7000 1 ] |}.

(** A filtered view from which every row has been removed. *)
Definition empty_view : DataFrame := {| columns := order_columns; rows := [] |}.

(** A normalised frame with one order for each of eleven products. *)
Definition product_names : list string :=
  ["p01"; "p02"; "p03"; "p04"; "p05"; "p06"; "p07"; "p08"; "p09"; "p10";
   "p11"].

Definition eleven_products : DataFrame :=
  {| columns := ["region"; "product_name"; "_quantity"];
     rows := (fun p : string =>
                ({[ "region" := VStr "华南"; "product_name" := VStr p;
                    "_quantity" := VNum 1 ]} : Row)) <$> product_names |}.

(** The clusters of bars in a figure: per cluster its label and the
    heights of its bars. *)
Definition bars_of (a : Artist) : list (Val * list Z) :=
  match a with
  | Bars label _ heights _ _ => [(label, heights)]
  | _ => []
  end.

Definition bar_groups (fig : list Artist) : list (Val * list Z) :=
  concat (bars_of <$> fig).

(** The three rows of the regional example: two orders from 广东省 and
    one from 北京, with an [amount] column and no quantity. *)
Definition three_amounts : DataFrame :=
  {| columns := ["province"; "amount"];
     rows := [ {[ "province" := VStr "广东省"; "amount" := VNum 100 ]};
               {[ "province" := VStr "广东省"; "amount" := VNum 50 ]};
               {[ "province" := VStr "北京"; "amount" := VNum 30 ]} ] |}.

(** Orders in [n] consecutive months of 2024, one per month. *)
Definition monthly_orders (n : nat) : DataFrame :=
  {| columns := order_columns;
     rows := (fun k : nat =>
                order "华东" "针织衫" 2024 (Z.of_nat (S k)) 1
                      (100 * Z.of_nat (S k)) 1) <$> seq 0 n |}.

(** The columns that the date resolution writes. *)
Definition derived_date_columns : list string :=
  ["_primary_date"; "year"; "month"; "quarter"].

(** Every column that [load_data] may write. *)
Definition normaliser_columns : list string :=
  "region" :: date_candidates ++ derived_date_columns
  ++ ["_amount"; "_quantity"].

(** Two orders with a region and no amount column; the second has no unit
    price. *)
Definition orders_with_region : DataFrame :=
  {| columns := ["region"; "quantity"; "unit_price"; "remark"];
     rows := [ {[ "region" := VStr "华东"; "quantity" := VNum 2;
                  "unit_price" := VNum 1990; "remark" := VStr "gift" ]};
               {[ "quantity" := VNum 1 ]} ] |}.

(** A row passes a selection when the selection does not filter (it is
    [None] or empty) or holds the row's value. *)
Definition passes (col : string) (selected : option (list Val)) (r : Row)
  : Prop :=
  truthy selected = false \/ r !! col ∈ default [] selected.

#[global] Instance passes_dec col selected r : Decision (passes col selected r).
Proof. unfold passes. apply _. Defined.

(** The frame of a load that went well, and the view of a filtering that
    went well; the empty frame otherwise. *)
Definition frame_of (l : Loaded) : DataFrame :=
  match l with
  | Frame df => df
  | LoadFailed _ => {| columns := []; rows := [] |}
  end.

Definition result_frame (m : Result DataFrame) : DataFrame :=
  match m with
  | OK df => df
  | Raise _ => {| columns := []; rows := [] |}
  end.

(** Two consignees with a province and no amount, quantity or price. *)
Definition addresses_only : DataFrame :=
  {| columns := ["province"; "consignee"];
     rows := [ {[ "province" := VStr "广东省"; "consignee" := VStr "a" ]};
               {[ "province" := VStr "北京"; "consignee" := VStr "b" ]} ] |}.

(** The plain sum of a value column: what [sum] gives when every cell is
    a number or missing. *)
Definition num0 (v : Val) : Z :=
  match v with
  | Some (VNum n) => n
  | _ => 0
  end.

Definition zsum (l : list Z) : Z := foldr Z.add 0 l.

Definition numeric (v : Val) : bool :=
  match v with
  | None | Some (VNum _) => true
  | Some _ => false
  end.

(** * Properties *)

(** ** The error monad *)

Lemma rbind_OK {A B} (m : Result A) (k : A -> Result B) (b : B) :
  rbind m k = OK b -> exists a, m = OK a /\ k a = OK b.
Proof. destruct m as [a|e]; simpl; [eauto | discriminate]. Qed.

Ltac inv_bind H :=
  let a := fresh "a" in
  let Ha := fresh "Ha" in
  apply rbind_OK in H; destruct H as (a & Ha & H).

(** ** Columns of a frame *)

Lemma has_column_true c df : has_column c df = true <-> c ∈ columns df.
Proof. unfold has_column. apply bool_decide_eq_true. Qed.

Lemma get_col_OK df c s :
  get_col df c = OK s -> has_column c df = true /\ s = column c df.
Proof.
  unfold get_col. destruct (has_column c df); [|discriminate].
  intros [= <-]. done.
Qed.

Lemma length_column c df : length (column c df) = length (rows df).
Proof. unfold column. apply length_fmap. Qed.

Lemma lookup_set_cell_eq c (r : Row) (v : Val) : set_cell c r v !! c = v.
Proof.
  destruct v; simpl; [apply lookup_insert_eq | apply lookup_delete_eq].
Qed.

Lemma lookup_set_cell_ne c k (r : Row) (v : Val) :
  c <> k -> set_cell c r v !! k = r !! k.
Proof.
  intros Hne. destruct v; simpl;
    [by apply lookup_insert_ne | by apply lookup_delete_ne].
Qed.

Lemma column_zip_set_ne c k (l : list Row) (s : list Val) :
  c <> k -> length s = length l ->
  (fun r : Row => r !! k) <$> zip_with (set_cell c) l s
  = (fun r : Row => r !! k) <$> l.
Proof.
  intros Hne. revert s.
  induction l as [|r l IH]; intros [|v s] Hlen; simpl in *; try done.
  rewrite lookup_set_cell_ne by done. f_equal. apply IH. lia.
Qed.

Lemma column_zip_set_eq k (l : list Row) (s : list Val) :
  length s = length l ->
  (fun r : Row => r !! k) <$> zip_with (set_cell k) l s = s.
Proof.
  revert s.
  induction l as [|r l IH]; intros [|v s] Hlen; simpl in *; try done.
  rewrite lookup_set_cell_eq. f_equal. apply IH. lia.
Qed.

(** Writing one column leaves every other column as it was. *)
Lemma column_set_col_ne c k df s :
  c <> k -> length s = length (rows df) ->
  column k (set_col df c s) = column k df.
Proof. intros. unfold column, set_col. simpl. by apply column_zip_set_ne. Qed.

Lemma column_set_col_eq k df s :
  length s = length (rows df) -> column k (set_col df k s) = s.
Proof. intros. unfold column, set_col. simpl. by apply column_zip_set_eq. Qed.

Lemma length_rows_set_col c df s :
  length s = length (rows df) ->
  length (rows (set_col df c s)) = length (rows df).
Proof. intros H. unfold set_col. simpl. rewrite length_zip_with. lia. Qed.

Lemma series_mul_length s t v :
  series_mul s t = OK v -> length v = Nat.min (length s) (length t).
Proof.
  revert t v. induction s as [|a s IH]; intros [|b t] v; simpl;
    try (intros [= <-]; done).
  intros H. inv_bind H. inv_bind H. injection H as <-.
  simpl. f_equal. by apply IH.
Qed.

Ltac len :=
  repeat first
    [ rewrite length_fmap
    | rewrite length_column
    | rewrite length_rows_set_col by len ];
  try done.

(** ** The normaliser keeps the region column and the row count *)

Lemma coerce_date_column_region td df col :
  col <> "region" ->
  column "region" (coerce_date_column td df col) = column "region" df.
Proof.
  intros Hne. unfold coerce_date_column.
  destruct (has_column col df); [|done].
  apply column_set_col_ne; [done | len].
Qed.

Lemma resolve_dates_region td df :
  column "region" (resolve_dates td df) = column "region" df.
Proof.
  unfold resolve_dates.
  set (df' := foldl (coerce_date_column td) df date_candidates).
  assert (Hdf' : column "region" df' = column "region" df).
  { unfold df', date_candidates. simpl.
    rewrite !coerce_date_column_region by done. done. }
  destruct (first_present date_candidates df') as [primary_date|]; [|done].
  rewrite <- Hdf'.
  rewrite !column_set_col_ne; [done | done | len ..].
Qed.

Lemma resolve_amount_column k df df' :
  k <> "_amount" ->
  resolve_amount df = OK df' -> column k df' = column k df.
Proof.
  intros Hk. unfold resolve_amount.
  destruct (first_present amount_candidates df) as [amount_col|].
  - intros H. inv_bind H. injection H as <-.
    apply get_col_OK in Ha as [_ ->].
    apply column_set_col_ne; [done | len].
  - destruct (has_column "quantity" df && has_column "unit_price" df);
      [|by intros [= <-]].
    intros H. do 3 inv_bind H. injection H as <-.
    apply get_col_OK in Ha as [_ ->]. apply get_col_OK in Ha0 as [_ ->].
    apply series_mul_length in Ha1.
    apply column_set_col_ne; [done|].
    rewrite Ha1. len. lia.
Qed.

Lemma resolve_quantity_column k df df' :
  k <> "_quantity" ->
  resolve_quantity df = OK df' -> column k df' = column k df.
Proof.
  intros Hk. unfold resolve_quantity. destruct (has_column "quantity" df);
    [|by intros [= <-]].
  intros H. inv_bind H. injection H as <-.
  apply get_col_OK in Ha as [_ ->].
  apply column_set_col_ne; [done | len].
Qed.

Lemma resolve_region_column df df' :
  resolve_region df = OK df' ->
  (has_column "region" df || has_column "province" df = true)
  /\ column "region" df'
     = (fun r : Row =>
          Some (region_of (has_column "region" df)
                          (has_column "province" df) r)) <$> rows df.
Proof.
  unfold resolve_region. intros H. inv_bind H. inv_bind H.
  injection H as <-. apply get_col_OK in Ha0 as [Hreg ->].
  assert (Hlen : forall x, length (fillna_const (column "region" x) (VStr OTHER))
                           = length (rows x)).
  { intros x. unfold fillna_const. len. }
  rewrite column_set_col_eq by apply Hlen.
  destruct (has_column "province" df) eqn:Hp.
  - inv_bind Ha. apply get_col_OK in Ha0 as [_ ->].
    destruct (has_column "region" df) eqn:Hr.
    + inv_bind Ha. injection Ha as <-. apply get_col_OK in Ha0 as [_ ->].
      split; [done|].
      rewrite column_set_col_eq
        by (unfold fillna, series_map; rewrite length_zip_with; len; lia).
      unfold fillna_const, fillna, series_map, column, region_of.
      rewrite zip_with_fmap_l, !zip_with_fmap_r, zip_with_diag,
        <- list_fmap_compose.
      apply list_fmap_ext. intros _ r _. simpl.
      destruct (r !! "region"); [done|].
      destruct (map_val REGION_MAPPING (r !! "province")); done.
    + injection Ha as <-. split; [done|].
      rewrite column_set_col_eq by (unfold series_map; len).
      unfold fillna_const, series_map, column, region_of.
      rewrite <- !list_fmap_compose.
      apply list_fmap_ext. intros _ r _. simpl.
      destruct (map_val REGION_MAPPING (r !! "province")); done.
  - injection Ha as <-. rewrite Hreg. split; [done|].
    unfold fillna_const, column, region_of.
    rewrite <- list_fmap_compose.
    apply list_fmap_ext. intros _ r _. simpl.
    destruct (r !! "region"); done.
Qed.

Lemma normalize_region td raw df :
  normalize td raw = OK df ->
  (has_column "region" raw || has_column "province" raw = true)
  /\ column "region" df
     = (fun r : Row =>
          Some (region_of (has_column "region" raw)
                          (has_column "province" raw) r)) <$> rows raw.
Proof.
  unfold normalize. intros H. do 2 inv_bind H.
  apply (resolve_quantity_column "region") in H; [|done].
  apply (resolve_amount_column "region") in Ha0; [|done].
  rewrite resolve_dates_region in Ha0.
  apply resolve_region_column in Ha as [Hc Ha].
  split; [done|]. by rewrite H, Ha0, Ha.
Qed.

Lemma Forall_column (P : Val -> Prop) c df :
  Forall P (column c df) <-> Forall (fun r : Row => P (r !! c)) (rows df).
Proof. unfold column. apply Forall_fmap. Qed.

Lemma load_data_Frame td src df :
  load_data td src = Frame df ->
  exists raw, src = OK raw /\ normalize td raw = OK df.
Proof.
  unfold load_data. destruct src as [raw|e]; simpl; [|discriminate].
  destruct (normalize td raw) eqn:Hn; [|discriminate].
  intros [= <-]. eauto.
Qed.

Lemma region_of_derived (r : Row) with_province :
  exists s, region_of false with_province r = VStr s
            /\ (s = OTHER \/ exists p, REGION_MAPPING !! p = Some s).
Proof.
  unfold region_of. destruct with_province; [|by eauto].
  unfold map_val. destruct (r !! "province") as [[p| |]|]; try by eauto.
  destruct (REGION_MAPPING !! p) as [s|] eqn:Hp; simpl; by eauto.
Qed.

(** C3. Whenever [load_data] hands back a frame, it has as many rows as the
    raw table and every row holds a region; when the raw table had no
    [region] column, that region is a string which is either the literal
    "其他" or a value of the province lookup. *)
Theorem load_data_region_total td src df :
  load_data td src = Frame df ->
  exists raw,
    src = OK raw
    /\ length (rows df) = length (rows raw)
    /\ Forall (fun r : Row => is_Some (r !! "region")) (rows df)
    /\ (has_column "region" raw = false ->
        Forall (fun r : Row =>
                  exists s, r !! "region" = Some (VStr s)
                            /\ (s = OTHER
                                \/ exists p, REGION_MAPPING !! p = Some s))
               (rows df)).
Proof.
  intros H. apply load_data_Frame in H as (raw & -> & Hn).
  apply normalize_region in Hn as [_ Hcol].
  exists raw. split; [done|]. split; [|split].
  - rewrite <- (length_column "region" df), Hcol. by rewrite length_fmap.
  - apply (Forall_column is_Some). rewrite Hcol.
    apply Forall_fmap, Forall_true. intros r. simpl. by eexists.
  - intros Hr.
    apply (Forall_column
             (fun v => exists s, v = Some (VStr s)
                /\ (s = OTHER \/ exists p, REGION_MAPPING !! p = Some s))).
    rewrite Hcol, Hr. apply Forall_fmap, Forall_true. intros r. simpl.
    destruct (region_of_derived r (has_column "province" raw))
      as (s & -> & Hs).
    by exists s.
Qed.

Lemma load_data_region_total_witness :
  exists df,
    load_data no_parse (OK provinces_only) = Frame df
    /\ length (rows df) = 3%nat
    /\ Forall (fun r : Row => is_Some (r !! "region")) (rows df).
Proof.
  eexists. split; [vm_compute; reflexivity|].
  destruct (load_data_region_total no_parse (OK provinces_only) _ eq_refl)
    as (raw & Hraw & Hlen & Hall & _).
  injection Hraw as <-. split; [exact Hlen | exact Hall].
Defined.

(** ** The lookup table *)

Ltac decide_by_computation :=
  apply (bool_decide_unpack _); vm_compute; exact I.

Lemma REGION_MAPPING_key p :
  is_Some (REGION_MAPPING !! p) -> p ∈ REGION_MAPPING_items.*1.
Proof.
  intros [g Hg]. unfold REGION_MAPPING in Hg.
  apply elem_of_list_to_map_2 in Hg.
  apply list_elem_of_fmap. by exists (p, g).
Qed.

(** C4, as stated, fails: the table cannot hold an entry for each of 34
    distinct provincial units, whatever they are called, because it has 31
    keys. *)
Lemma REGION_MAPPING_lacks_34_entries :
  ~ exists units : list string,
      NoDup units /\ length units = 34%nat
      /\ forall p, p ∈ units -> is_Some (REGION_MAPPING !! p).
Proof.
  intros (units & Hnd & Hlen & Hall).
  assert (Hsub : units ⊆+ REGION_MAPPING_items.*1).
  { apply NoDup_submseteq; [done|]. intros p Hp.
    by apply REGION_MAPPING_key, Hall. }
  apply submseteq_length in Hsub. rewrite Hlen in Hsub.
  vm_compute in Hsub. lia.
Qed.

Lemma load_data_row_region td raw df i (r0 : Row) :
  load_data td (OK raw) = Frame df ->
  rows raw !! i = Some r0 ->
  exists r : Row,
    rows df !! i = Some r
    /\ r !! "region"
       = Some (region_of (has_column "region" raw)
                         (has_column "province" raw) r0).
Proof.
  intros H Hi. apply load_data_Frame in H as (raw' & [= <-] & Hn).
  apply normalize_region in Hn as [_ Hcol].
  assert (Hl : column "region" df !! i
               = Some (Some (region_of (has_column "region" raw)
                                       (has_column "province" raw) r0))).
  { rewrite Hcol, list_lookup_fmap, Hi. done. }
  unfold column in Hl. rewrite list_lookup_fmap in Hl.
  destruct (rows df !! i) as [r|]; [|discriminate].
  exists r. split; [done|]. by injection Hl.
Qed.

(** C4, amended.  The table has 31 entries, one for each provincial unit
    of the mainland, each naming one of the seven regions; Taiwan, Hong
    Kong and Macau have no entry; and in a table without a [region]
    column, a row whose province is not a key of the table (those three
    included) is given the region "其他". *)
Theorem REGION_MAPPING_covers_mainland :
  size REGION_MAPPING = 31%nat
  /\ NoDup mainland_units
  /\ length mainland_units = 31%nat
  /\ Forall (fun p => exists g, g ∈ region_names
                                /\ REGION_MAPPING !! p = Some g)
            mainland_units
  /\ Forall (fun p => REGION_MAPPING !! p = None) special_units
  /\ forall td raw df i (r0 : Row),
       load_data td (OK raw) = Frame df ->
       has_column "region" raw = false ->
       rows raw !! i = Some r0 ->
       map_val REGION_MAPPING (r0 !! "province") = None ->
       exists r : Row,
         rows df !! i = Some r /\ r !! "region" = Some (VStr OTHER).
Proof.
  split; [by vm_compute|].
  split; [decide_by_computation|].
  split; [done|].
  split.
  { unfold mainland_units, municipalities, mainland_provinces,
      autonomous_regions. simpl.
    repeat (constructor;
            [eexists; split;
             [|vm_compute; reflexivity]; decide_by_computation|]).
    constructor. }
  split.
  { unfold special_units.
    repeat (constructor; [by vm_compute|]). constructor. }
  intros td raw df i r0 Hload Hreg Hi Hp.
  destruct (load_data_row_region td raw df i r0 Hload Hi) as (r & Hr & Hv).
  exists r. split; [done|]. rewrite Hv, Hreg. unfold region_of.
  destruct (has_column "province" raw); by rewrite ?Hp.
Qed.

Lemma REGION_MAPPING_covers_mainland_witness :
  exists df (r : Row),
    load_data no_parse (OK provinces_only) = Frame df
    /\ rows df !! 1%nat = Some r /\ r !! "region" = Some (VStr OTHER).
Proof.
  destruct REGION_MAPPING_covers_mainland as (_ & _ & _ & _ & _ & Hdefault).
  eexists.
  destruct (Hdefault no_parse provinces_only _ 1%nat
              {[ "province" := VStr "台湾省"; "quantity" := VNum 1 ]}
              ltac:(vm_compute; reflexivity) eq_refl eq_refl
              ltac:(vm_compute; reflexivity))
    as (r & Hr & Hv).
  exists r. split; [vm_compute; reflexivity|]. split; [exact Hr | exact Hv].
Defined.

(** ** Tables without region and province *)

Lemma normalize_needs_region td raw :
  has_column "region" raw = false ->
  has_column "province" raw = false ->
  normalize td raw = Raise (KeyError "region").
Proof.
  intros Hr Hp. unfold normalize, resolve_region, get_col.
  rewrite Hp. simpl. by rewrite Hr.
Qed.

(** C5, on the code.  A well-formed table of orders that has neither a
    [region] nor a [province] column is not normalised: the lookup of the
    [region] column raises a KeyError, which [load_data] reports as a load
    failure. *)
Theorem load_data_fails_without_region td :
  load_data td (OK orders_only) = LoadFailed (KeyError "region").
Proof.
  unfold load_data. cbv beta iota delta [rbind].
  by rewrite normalize_needs_region.
Qed.

(** ** sorted, unique and dropna *)

Lemma sorted_Permutation l l' : sorted l = OK l' -> l' ≡ₚ l.
Proof.
  unfold sorted. destruct (same_kind l); [|discriminate].
  intros [= <-]. apply merge_sort_Permutation.
Qed.

Lemma elem_of_sorted l l' x : sorted l = OK l' -> x ∈ l' <-> x ∈ l.
Proof. intros H. by rewrite (sorted_Permutation _ _ H). Qed.

Lemma elem_of_unique {A} `{EqDecision A} (l : list A) x :
  x ∈ unique l <-> x ∈ l.
Proof.
  unfold unique. by rewrite elem_of_reverse, elem_of_remove_dups,
    elem_of_reverse.
Qed.

Lemma NoDup_unique {A} `{EqDecision A} (l : list A) : NoDup (unique l).
Proof. unfold unique. rewrite reverse_Permutation. apply NoDup_remove_dups. Qed.

Lemma elem_of_dropna l x : x ∈ dropna l <-> is_Some x /\ x ∈ l.
Proof. unfold dropna. apply list_elem_of_filter. Qed.

Lemma filter_all {A} (P : A -> Prop) `{!forall x, Decision (P x)} (l : list A) :
  Forall P l -> filter P l = l.
Proof.
  intros Hall. induction Hall as [|x l Hx _ IH]; [done|].
  rewrite filter_cons_True by done. by rewrite IH.
Qed.

Lemma Forall_filter_sub {A} (P Q : A -> Prop) `{!forall x, Decision (P x)}
    (l : list A) :
  Forall Q l -> Forall Q (filter P l).
Proof.
  rewrite !Forall_forall. intros Hall x Hx.
  apply list_elem_of_filter in Hx as [_ Hx]. by apply Hall.
Qed.

Lemma year_options_spec df opts :
  year_options df = OK opts ->
  has_column "year" df = true
  /\ NoDup opts
  /\ forall v, v ∈ opts <-> is_Some v /\ v ∈ column "year" df.
Proof.
  unfold year_options. intros H. inv_bind H.
  apply get_col_OK in Ha as [Hc ->]. split; [done|]. split.
  - rewrite (sorted_Permutation _ _ H). apply NoDup_unique.
  - intros v. by rewrite (elem_of_sorted _ _ _ H), elem_of_unique,
      elem_of_dropna.
Qed.

Lemma product_options_spec df opts :
  product_options df = OK opts ->
  has_column "product_name" df = true
  /\ NoDup opts
  /\ forall v, v ∈ opts <-> is_Some v /\ v ∈ column "product_name" df.
Proof.
  unfold product_options. intros H. inv_bind H.
  apply get_col_OK in Ha as [Hc ->]. split; [done|]. split.
  - rewrite (sorted_Permutation _ _ H). apply NoDup_unique.
  - intros v. by rewrite (elem_of_sorted _ _ _ H), elem_of_unique,
      elem_of_dropna.
Qed.

Lemma region_options_spec df opts :
  region_options df = OK opts ->
  has_column "region" df = true
  /\ forall v, v ∈ opts <-> v ∈ column "region" df.
Proof.
  unfold region_options. intros H. inv_bind H.
  apply get_col_OK in Ha as [Hc ->]. split; [done|].
  intros v. by rewrite (elem_of_sorted _ _ _ H), elem_of_unique.
Qed.

(** ** Filtering *)

Lemma frame_eta df : {| columns := columns df; rows := rows df |} = df.
Proof. by destruct df. Qed.

Lemma filter_isin_all col selected df :
  has_column col df = true ->
  Forall (fun r : Row => r !! col ∈ selected) (rows df) ->
  filter_isin col selected df = OK df.
Proof.
  intros Hc Hall. unfold filter_isin, get_col. rewrite Hc. simpl.
  rewrite filter_all; [by rewrite frame_eta|].
  eapply Forall_impl; [exact Hall|]. intros r Hr. simpl.
  unfold isin. by apply bool_decide_pack.
Qed.

Lemma apply_selection_all col selected df :
  has_column col df = true ->
  Forall (fun r : Row => r !! col ∈ selected) (rows df) ->
  apply_selection col (Some selected) df = OK df.
Proof.
  intros Hc Hall. unfold apply_selection. destruct selected as [|v sel]; [done|].
  simpl. by apply filter_isin_all.
Qed.

Lemma apply_selection_empty col df : apply_selection col (Some []) df = OK df.
Proof. done. Qed.

(** A selection step keeps the columns and only removes rows. *)
Lemma apply_selection_sub col selected df df' :
  apply_selection col selected df = OK df' ->
  columns df' = columns df
  /\ forall Q : Row -> Prop, Forall Q (rows df) -> Forall Q (rows df').
Proof.
  unfold apply_selection. destruct (truthy selected); [|by intros [= <-]].
  unfold filter_isin. intros H. inv_bind H. injection H as <-. simpl.
  split; [done|]. intros Q. apply Forall_filter_sub.
Qed.

Lemma apply_selection_kept col selected df df' (r : Row) :
  apply_selection col selected df = OK df' ->
  truthy selected = true ->
  r ∈ rows df' -> r ∈ rows df /\ r !! col ∈ default [] selected.
Proof.
  unfold apply_selection. intros H Ht. rewrite Ht in H.
  unfold filter_isin in H. inv_bind H. injection H as <-. simpl.
  intros Hr. apply list_elem_of_filter in Hr as [Hin Hr]. split; [done|].
  unfold isin in Hin. by apply bool_decide_unpack in Hin.
Qed.

Lemma has_column_sub c df df' :
  columns df' = columns df -> has_column c df' = has_column c df.
Proof. unfold has_column. by intros ->. Qed.

Lemma Forall_column_elem c df :
  Forall (fun r : Row => r !! c ∈ column c df) (rows df).
Proof.
  apply Forall_forall. intros r Hr. unfold column.
  apply list_elem_of_fmap. by exists r.
Qed.

(** ** Empty selection against full selection *)

Lemma select_years_pick ui df opts pick :
  year_options df = OK opts ->
  select_years (with_pick DYear (Some pick) ui) df = OK (Some pick).
Proof.
  intros H. unfold select_years.
  destruct (year_options_spec _ _ H) as [-> _]. by rewrite H.
Qed.

Lemma select_regions_pick ui df opts pick :
  region_options df = OK opts ->
  select_regions (with_pick DRegion (Some pick) ui) df = OK (Some pick).
Proof. intros H. unfold select_regions. by rewrite H. Qed.

Lemma select_products_pick ui df opts pick :
  product_options df = OK opts ->
  select_products (with_pick DProduct (Some pick) ui) df
  = OK (if (length opts <=? 50)%nat then Some pick else None).
Proof.
  intros H. unfold select_products.
  destruct (product_options_spec _ _ H) as [-> _]. rewrite H. simpl.
  by destruct (length opts <=? 50)%nat.
Qed.

Lemma present_in_options c df (opts : list Val) :
  (forall v, v ∈ opts <-> is_Some v /\ v ∈ column c df) ->
  Forall (fun r : Row => is_Some (r !! c)) (rows df) ->
  Forall (fun r : Row => r !! c ∈ opts) (rows df).
Proof.
  intros Hspec Hpresent.
  pose proof (Forall_column_elem c df) as Hin.
  rewrite Forall_forall in *. intros r Hr. apply Hspec. auto.
Qed.

(** C2, amended.  For the region dimension always, and for the year and
    product dimensions whenever no row of the dataset lacks a value there,
    selecting every offered value gives the same view as selecting
    nothing, the other two selections being held fixed. *)
Theorem no_restriction_equivalence D ui df opts :
  options D df = OK opts ->
  D = DRegion
  \/ Forall (fun r : Row => is_Some (r !! dim_column D)) (rows df) ->
  sidebar_filters (with_pick D (Some opts) ui) df
  = sidebar_filters (with_pick D (Some []) ui) df.
Proof.
  intros Hopts Hpresent. unfold sidebar_filters.
  destruct D; simpl in Hopts.
  - (* year: the first filter is the identity on both sides *)
    destruct Hpresent as [?|Hpresent]; [done|].
    rewrite !(select_years_pick _ _ _ _ Hopts).
    destruct (year_options_spec _ _ Hopts) as (Hc & _ & Hspec).
    change (select_regions (with_pick DYear ?p ui) df)
      with (select_regions ui df).
    change (select_products (with_pick DYear ?p ui) df)
      with (select_products ui df).
    cbn [rbind].
    destruct (select_regions ui df) as [sr|]; [|done].
    destruct (select_products ui df) as [sp|]; [|done].
    cbn [rbind].
    rewrite apply_selection_all;
      [done | done | by apply present_in_options].
  - (* region: every region of the dataset is among the offered ones *)
    rewrite !(select_regions_pick _ _ _ _ Hopts).
    destruct (region_options_spec _ _ Hopts) as (Hc & Hspec).
    change (select_years (with_pick DRegion ?p ui) df)
      with (select_years ui df).
    change (select_products (with_pick DRegion ?p ui) df)
      with (select_products ui df).
    destruct (select_years ui df) as [sy|]; [|done].
    cbn [rbind].
    destruct (select_products ui df) as [sp|]; [|done].
    cbn [rbind].
    destruct (apply_selection "year" sy df) as [df1|] eqn:H1; [|done].
    cbn [rbind].
    destruct (apply_selection_sub _ _ _ _ H1) as [Hcols Hsub].
    rewrite apply_selection_all; [done | | ].
    + by rewrite (has_column_sub _ _ _ Hcols).
    + apply Hsub. eapply Forall_impl; [apply (Forall_column_elem "region")|].
      intros r Hr. by apply Hspec.
  - (* product *)
    destruct Hpresent as [?|Hpresent]; [done|].
    rewrite !(select_products_pick _ _ _ _ Hopts).
    destruct (product_options_spec _ _ Hopts) as (Hc & _ & Hspec).
    change (select_years (with_pick DProduct ?p ui) df)
      with (select_years ui df).
    change (select_regions (with_pick DProduct ?p ui) df)
      with (select_regions ui df).
    destruct (select_years ui df) as [sy|]; [|done].
    cbn [rbind].
    destruct (select_regions ui df) as [sr|]; [|done].
    cbn [rbind].
    destruct (length opts <=? 50)%nat; [|done].
    destruct (apply_selection "year" sy df) as [df1|] eqn:H1; [|done].
    cbn [rbind].
    destruct (apply_selection "region" sr df1) as [df2|] eqn:H2; [|done].
    cbn [rbind].
    destruct (apply_selection_sub _ _ _ _ H1) as [Hcols1 Hsub1].
    destruct (apply_selection_sub _ _ _ _ H2) as [Hcols2 Hsub2].
    rewrite apply_selection_all; [done | | ].
    + by rewrite (has_column_sub _ _ _ Hcols2), (has_column_sub _ _ _ Hcols1).
    + apply Hsub2, Hsub1. by apply present_in_options.
Qed.

Lemma no_restriction_equivalence_witness :
  exists df opts,
    load_data day_parse (OK dated_orders) = Frame df
    /\ options DYear df = OK opts
    /\ sidebar_filters (with_pick DYear (Some opts) untouched) df
       = sidebar_filters (with_pick DYear (Some []) untouched) df.
Proof.
  eexists. eexists.
  split; [vm_compute; reflexivity|].
  split; [vm_compute; reflexivity|].
  apply no_restriction_equivalence;
    [vm_compute; reflexivity | right; decide_by_computation].
Defined.

(** C2, as stated, fails on a normalised dataset in which one payment date
    did not parse: the year filter offers 2024 only; with nothing selected
    both orders are shown, with 2024 selected the undated order is gone. *)
Lemma full_selection_drops_undated_rows :
  exists df opts,
    load_data day_parse (OK undated_orders) = Frame df
    /\ options DYear df = OK opts
    /\ rmap (fun v => length (rows v))
         (sidebar_filters (with_pick DYear (Some []) untouched) df)
       = OK 2%nat
    /\ rmap (fun v => length (rows v))
         (sidebar_filters (with_pick DYear (Some opts) untouched) df)
       = OK 1%nat
    /\ sidebar_filters (with_pick DYear (Some opts) untouched) df
       <> sidebar_filters (with_pick DYear (Some []) untouched) df.
Proof.
  eexists. eexists.
  split; [vm_compute; reflexivity|].
  split; [vm_compute; reflexivity|].
  split; [vm_compute; reflexivity|].
  split; [vm_compute; reflexivity|].
  intros H. apply (f_equal (rmap (fun v => length (rows v)))) in H.
  vm_compute in H. discriminate.
Qed.

(** ** The product filter *)

Lemma select_products_None_unfiltered ui df :
  select_products ui df = OK None ->
  sidebar_filters ui df
  = (let* selected_years := select_years ui df in
     let* selected_regions := select_regions ui df in
     let* filtered_df := apply_selection "year" selected_years df in
     apply_selection "region" selected_regions filtered_df).
Proof.
  intros H. unfold sidebar_filters. rewrite H.
  destruct (select_years ui df) as [sy|]; [|done]. cbn [rbind].
  destruct (select_regions ui df) as [sr|]; [|done]. cbn [rbind].
  destruct (apply_selection "year" sy df) as [df1|]; [|done]. cbn [rbind].
  by destruct (apply_selection "region" sr df1).
Qed.

Lemma take_drop_disjoint {A} (l : list A) n x :
  NoDup l -> x ∈ take n l -> x ∉ drop n l.
Proof.
  intros Hnd. rewrite <- (take_drop n l) in Hnd.
  apply NoDup_app in Hnd as (_ & Hdisj & _). apply Hdisj.
Qed.

(** C10.  A product selection exists only for a frame with a
    [product_name] column of at most 50 distinct non-missing names; with
    more than 50 names there is none, whatever the user did, and the view
    is the one the year and region filters give; with 11 to 50 names and
    the widget untouched the selection is the first ten names in sorted
    order, and no row of another product is in the view. *)
Theorem product_filter_policy ui df :
  (forall selected,
     select_products ui df = OK (Some selected) ->
     has_column "product_name" df = true
     /\ exists products,
          product_options df = OK products /\ (length products <= 50)%nat)
  /\ (forall products,
        product_options df = OK products ->
        (50 < length products)%nat ->
        select_products ui df = OK None
        /\ sidebar_filters ui df
           = (let* selected_years := select_years ui df in
              let* selected_regions := select_regions ui df in
              let* filtered_df := apply_selection "year" selected_years df in
              apply_selection "region" selected_regions filtered_df))
  /\ (forall products,
        product_options df = OK products ->
        (10 < length products <= 50)%nat ->
        pick_products ui = None ->
        select_products ui df = OK (Some (take 10 products))
        /\ forall view (r : Row),
             sidebar_filters ui df = OK view ->
             r ∈ rows view ->
             r !! "product_name" ∈ take 10 products
             /\ r !! "product_name" ∉ drop 10 products).
Proof.
  split; [|split].
  - intros selected. unfold select_products.
    destruct (has_column "product_name" df); [|discriminate].
    destruct (product_options df) as [products|]; [|discriminate].
    cbn [rbind]. destruct (length products <=? 50)%nat eqn:Hlen;
      [|discriminate].
    intros _. split; [done|]. exists products. split; [done|].
    by apply Nat.leb_le.
  - intros products Hopts Hlen.
    assert (Hsel : select_products ui df = OK None).
    { unfold select_products.
      destruct (product_options_spec _ _ Hopts) as [-> _]. rewrite Hopts.
      cbn [rbind].
      destruct (length products <=? 50)%nat eqn:Hle; [|done].
      apply Nat.leb_le in Hle. lia. }
    split; [done|]. by apply select_products_None_unfiltered.
  - intros products Hopts [Hlo Hhi] Hpick.
    destruct (product_options_spec _ _ Hopts) as (Hc & Hnd & _).
    assert (Hsel : select_products ui df = OK (Some (take 10 products))).
    { unfold select_products. rewrite Hc, Hopts. cbn [rbind].
      apply Nat.leb_le in Hhi. rewrite Hhi, Hpick. simpl.
      unfold default_products. apply Nat.ltb_lt in Hlo. by rewrite Hlo. }
    split; [done|]. intros view r Hview Hr.
    unfold sidebar_filters in Hview. rewrite Hsel in Hview.
    do 2 inv_bind Hview. cbn [rbind] in Hview. do 2 inv_bind Hview.
    assert (Ht : truthy (Some (take 10 products)) = true).
    { destruct products as [|p products]; [simpl in Hlo; lia|done]. }
    destruct (apply_selection_kept _ _ _ _ r Hview Ht Hr) as [_ Hin].
    simpl in Hin. split; [done|]. by apply take_drop_disjoint.
Qed.

Lemma product_filter_policy_witness :
  select_products untouched eleven_products
  = OK (Some (take 10 (Some ∘ VStr <$> product_names)))
  /\ forall view (r : Row),
       sidebar_filters untouched eleven_products = OK view ->
       r ∈ rows view ->
       r !! "product_name" ∈ take 10 (Some ∘ VStr <$> product_names)
       /\ r !! "product_name" ∉ drop 10 (Some ∘ VStr <$> product_names).
Proof.
  destruct (product_filter_policy untouched eleven_products) as (_ & _ & H).
  apply (H (Some ∘ VStr <$> product_names));
    [vm_compute; reflexivity | vm_compute; lia | reflexivity].
Defined.

(** ** Loops that may raise *)

Lemma rmapM_Forall2 {A B} (f : A -> Result B) l ys :
  rmapM f l = OK ys -> Forall2 (fun x y => f x = OK y) l ys.
Proof.
  revert ys. induction l as [|x l IH]; intros ys; simpl.
  - intros [= <-]. constructor.
  - intros H. inv_bind H. inv_bind H. injection H as <-.
    constructor; [done | by apply IH].
Qed.

Lemma rmapM_total {A B} (f : A -> Result B) l :
  Forall (fun x => exists y, f x = OK y) l -> exists ys, rmapM f l = OK ys.
Proof.
  induction 1 as [|x l [y Hy] _ [ys IH]]; simpl; [by eexists|].
  rewrite Hy, IH. simpl. by eexists.
Qed.

Lemma rmapM_elem_of {A B} (f : A -> Result B) l ys y :
  rmapM f l = OK ys -> y ∈ ys -> exists x, x ∈ l /\ f x = OK y.
Proof.
  intros H Hy. apply rmapM_Forall2 in H.
  apply list_elem_of_lookup in Hy as [i Hi].
  destruct (Forall2_lookup_r _ _ _ _ _ H Hi) as (x & Hx & Hf).
  exists x. split; [|done]. apply list_elem_of_lookup. by exists i.
Qed.

(** ** Which field a chart sums *)

Lemma groupby_sum_entry key value df agg g total :
  groupby_sum key value df = OK agg ->
  (g, total) ∈ agg ->
  sums_field value (group_rows key g df) total.
Proof.
  unfold groupby_sum. intros H Hin. do 3 inv_bind H.
  destruct (rmapM_elem_of _ _ _ _ H Hin) as (g' & _ & Hg).
  unfold group_sum in Hg. inv_bind Hg. injection Hg as <- <-. done.
Qed.

Lemma elem_of_sort_values_desc {A} (l : list (A * Z)) x :
  x ∈ sort_values_desc l <-> x ∈ l.
Proof. unfold sort_values_desc. by rewrite merge_sort_Permutation. Qed.

Lemma elem_of_top {A} n (l : list (A * Z)) x :
  x ∈ take n (sort_values_desc l) -> x ∈ l.
Proof.
  intros H. apply (proj1 (elem_of_sort_values_desc _ _)).
  by apply (subseteq_take n (sort_values_desc l)).
Qed.

Lemma month_rows_filter (df : DataFrame) (m : Period) :
  filter (fun r : Row => month_of r = Some m)
    (filter (fun r : Row => is_Some (r !! "_primary_date")) (rows df))
  = filter (fun r : Row => month_of r = Some m) (rows df).
Proof.
  rewrite list_filter_filter. apply list_filter_iff. intros r.
  split; [by intros [? _]|]. intros Hm. split; [done|].
  unfold month_of in Hm. destruct (r !! "_primary_date"); [by eexists|done].
Qed.

Lemma quarterly_table_entry df quarterly g total :
  quarterly_table df = OK quarterly ->
  (g, total) ∈ quarterly ->
  sums_field (revenue_field df)
    (filter (fun r : Row => year_quarter r = Some g) (rows df)) total.
Proof.
  intros H Hin. unfold quarterly_table in H. do 3 inv_bind H.
  destruct (same_kind _ && same_kind _); [|discriminate].
  destruct (rmapM_elem_of _ _ _ _ H Hin) as (g' & _ & Hg).
  unfold quarter_sum in Hg. inv_bind Hg. injection Hg as <- <-. done.
Qed.

(** C6.  The regional, top-product and rose aggregates hold, for each of
    their groups, the sum of [_quantity] when the frame has that column and
    of [_amount] otherwise; the monthly and the quarterly aggregates hold
    the sum of [_amount] when the frame has that column and of [_quantity]
    otherwise. *)
Theorem value_field_policy df :
  (forall stats g total,
     region_stats df = OK stats -> (g, total) ∈ stats ->
     sums_field (volume_field df) (group_rows "region" g df) total)
  /\ (forall n top g total,
        top_products n df = OK top -> (g, total) ∈ top ->
        sums_field (volume_field df)
          (group_rows (product_column df) g df) total)
  /\ (forall agg g total,
        rose_table df = OK agg -> (g, total) ∈ agg ->
        sums_field (volume_field df)
          (group_rows (category_column df) g df) total)
  /\ (forall monthly m total,
        monthly_buckets df = OK monthly -> (m, total) ∈ monthly ->
        sums_field (revenue_field df)
          (filter (fun r : Row => month_of r = Some m) (rows df)) total)
  /\ (forall quarterly g total,
        quarterly_table df = OK quarterly -> (g, total) ∈ quarterly ->
        sums_field (revenue_field df)
          (filter (fun r : Row => year_quarter r = Some g) (rows df)) total).
Proof.
  repeat split.
  - intros stats g total H Hin. unfold region_stats in H. inv_bind H.
    injection H as <-. apply (proj1 (elem_of_sort_values_desc _ _)) in Hin.
    by apply (groupby_sum_entry _ _ _ _ _ _ Ha).
  - intros n top g total H Hin. unfold top_products in H. inv_bind H.
    injection H as <-. apply elem_of_top in Hin.
    by apply (groupby_sum_entry _ _ _ _ _ _ Ha).
  - intros agg g total H Hin. unfold rose_table in H. inv_bind H.
    injection H as <-. apply elem_of_top in Hin.
    by apply (groupby_sum_entry _ _ _ _ _ _ Ha).
  - intros monthly m total H Hin. unfold monthly_buckets in H.
    do 2 inv_bind H.
    destruct (rmapM_elem_of _ _ _ _ H Hin) as (m' & _ & Hm).
    unfold month_sum in Hm. inv_bind Hm. injection Hm as <- <-.
    unfold sums_field. by rewrite <- month_rows_filter.
  - intros quarterly g total H Hin. by eapply quarterly_table_entry.
Qed.

Lemma value_field_policy_witness :
  sums_field "_quantity"
    (group_rows "region" (Some (VStr "华南")) four_orders) 3
  /\ sums_field "_amount"
       (filter (fun r : Row => month_of r = Some (2024, 2))
          (rows four_orders)) 8000.
Proof.
  destruct (value_field_policy four_orders) as (Hregion & _ & _ & Hmonth & _).
  split.
  - eapply (Hregion _ (Some (VStr "华南")) 3);
      [vm_compute; reflexivity | decide_by_computation].
  - eapply (Hmonth _ (2024, 2) 8000);
      [vm_compute; reflexivity | decide_by_computation].
Defined.

(** ** Views without rows *)

Lemma groupby_sum_empty key value df :
  rows df = [] ->
  has_column key df = true -> has_column value df = true ->
  groupby_sum key value df = OK [].
Proof.
  intros Hrows Hk Hv. unfold groupby_sum, get_col, column.
  rewrite Hk, Hv, Hrows. done.
Qed.

(** The regional chart has no guard for an empty aggregate: [max] of the
    empty list of quantities raises. *)
Lemma regional_bars_empty_view df :
  rows df = [] ->
  has_column "region" df = true ->
  has_column (quantity_first df) df = true ->
  plot_regional_gradient_bars df = Raise ValueError.
Proof.
  intros Hrows Hr Hq. unfold plot_regional_gradient_bars, region_stats.
  by rewrite groupby_sum_empty.
Qed.

(** C1, on the code.  Choosing the year 2023 and the region 华南 leaves no
    row of the four orders.  On that view the monthly, quarterly and rose
    charts give the insufficient-data outcome, but the regional chart
    raises ValueError and the top-product chart hands back a figure
    without a single bar. *)
Theorem charts_on_empty_view :
  sidebar_filters
    {| pick_years := Some [Some (VNum 2023)];
       pick_regions := Some [Some (VStr "华南")];
       pick_products := None |} four_orders = OK empty_view
  /\ plot_regional_gradient_bars empty_view = Raise ValueError
  /\ plot_top_products empty_view 10 = OK (Drawn [])
  /\ plot_monthly_trend empty_view
     = OK (NoFigure "数据点不足,无法绘制趋势图")
  /\ plot_quarterly_comparison empty_view
     = OK (NoFigure "没有可用的年度数据")
  /\ plot_rose_chart empty_view
     = OK (NoFigure "没有足够的数据绘制玫瑰图").
Proof.
  split; [by vm_compute|].
  split; [by apply regional_bars_empty_view|].
  repeat split; by vm_compute.
Qed.

(** ** The monthly trend *)

Lemma py_max_OK l : l <> [] -> exists m, py_max l = OK m.
Proof. destruct l; [done|]. intros _. simpl. by eexists. Qed.

Lemma trend_labels_total (x y : list Z) :
  y <> [] ->
  exists labels,
    rmapM (fun '(xi, yi) =>
             let* m := py_max y in
             OK (Text (inject_Z xi)
                      (inject_Z yi + inject_Z m * (3 # 100))%Q yi))
          (zip x y) = OK labels
    /\ length labels = length (zip x y).
Proof.
  intros Hy. destruct (py_max_OK y Hy) as [m Hm].
  destruct (rmapM_total
              (fun '(xi, yi) =>
                 let* m := py_max y in
                 OK (Text (inject_Z xi)
                          (inject_Z yi + inject_Z m * (3 # 100))%Q yi))
              (zip x y)) as [labels Hl].
  { apply Forall_true. intros [xi yi]. rewrite Hm. simpl. by eexists. }
  exists labels. split; [done|].
  apply rmapM_Forall2, Forall2_length in Hl. done.
Qed.

(** C7.  With fewer than two monthly buckets the trend chart gives the
    insufficient-data outcome; with two or three it joins the bucket sums
    by a marked polyline; with more than three it draws the interpolating
    spline of degree [min 3 (n - 1)] through them, sampled at 300 points;
    in both drawing cases the bucket sums themselves are scattered on top
    and labelled one by one. *)
Theorem monthly_trend_policy df monthly :
  has_column "_primary_date" df = true ->
  monthly_buckets df = OK monthly ->
  let n := length monthly in
  let x := Z.of_nat <$> seq 0 n in
  let y := snd <$> monthly in
  ((n < 2)%nat -> exists w, plot_monthly_trend df = OK (NoFigure w))
  /\ ((n = 2 \/ n = 3)%nat ->
      exists labels,
        length labels = n
        /\ plot_monthly_trend df
           = OK (Drawn (Plot x y true :: Scatter x y :: labels)))
  /\ ((3 < n)%nat ->
      exists labels,
        length labels = n
        /\ plot_monthly_trend df
           = OK (Drawn (SplineCurve (Nat.min 3 (n - 1)) x y 300
                        :: Scatter x y :: labels))).
Proof.
  intros Hc Hm n x y. unfold plot_monthly_trend. rewrite Hc, Hm.
  cbn [negb rbind]. fold n x y.
  assert (Hlx : length x = n) by (unfold x; by rewrite length_fmap, length_seq).
  assert (Hly : length y = n) by (unfold y; by rewrite length_fmap).
  assert (Hlabels : (2 <= n)%nat ->
            exists labels,
              rmapM (fun '(xi, yi) =>
                       let* m := py_max y in
                       OK (Text (inject_Z xi)
                                (inject_Z yi + inject_Z m * (3 # 100))%Q yi))
                    (zip x y) = OK labels
              /\ length labels = n).
  { intros Hn. destruct (trend_labels_total x y) as (labels & Hl & Hlen).
    { intros Hy. rewrite Hy in Hly. simpl in Hly. lia. }
    exists labels. split; [done|]. rewrite Hlen, length_zip. lia. }
  split; [|split].
  - intros Hn. apply Nat.ltb_lt in Hn. rewrite Hn. by eexists.
  - intros Hn.
    assert (Hlt : (n <? 2)%nat = false) by (apply Nat.ltb_ge; lia).
    rewrite Hlt. destruct Hlabels as (labels & -> & Hlen); [lia|].
    exists labels. split; [done|]. cbn [rbind]. unfold trend_curve.
    rewrite Hlx.
    assert (H3 : (3 <? n)%nat = false) by (apply Nat.ltb_ge; lia).
    by rewrite H3.
  - intros Hn.
    assert (Hlt : (n <? 2)%nat = false) by (apply Nat.ltb_ge; lia).
    rewrite Hlt. destruct Hlabels as (labels & -> & Hlen); [lia|].
    exists labels. split; [done|]. cbn [rbind]. unfold trend_curve.
    rewrite Hlx.
    assert (H3 : (3 <? n)%nat = true) by (apply Nat.ltb_lt; lia).
    by rewrite H3.
Qed.

Lemma monthly_trend_policy_witness :
  exists labels,
    length labels = 3%nat
    /\ plot_monthly_trend four_orders
       = OK (Drawn (Plot [0; 1; 2] [7000; 10000; 8000] true
                    :: Scatter [0; 1; 2] [7000; 10000; 8000] :: labels)).
Proof.
  destruct (monthly_trend_policy four_orders
              [((2023, 11), 7000); ((2024, 1), 10000); ((2024, 2), 8000)]
              eq_refl ltac:(vm_compute; reflexivity)) as (_ & H & _).
  apply H. by right.
Defined.

(** ** The rose chart *)

#[global] Instance value_desc_total {A} : Total (@value_desc A).
Proof. intros a b. unfold value_desc. lia. Qed.

#[global] Instance value_desc_trans {A} : Transitive (@value_desc A).
Proof. intros a b c. unfold value_desc. lia. Qed.

Lemma length_linspace a b n e : length (linspace a b n e) = n.
Proof. unfold linspace. by rewrite length_fmap, length_seq. Qed.

Lemma rose_bars_lookup (top : list (Val * Z)) i g total :
  top !! i = Some (g, total) ->
  exists shade,
    rose_bars top !! i
    = Some (PolarBar (rose_theta (length top) i) total
                     (rose_width (length top)) shade).
Proof.
  intros Hi. unfold rose_bars.
  assert (Hlt : (i < length top)%nat) by (by eapply lookup_lt_Some).
  destruct (lookup_lt_is_Some_2
              (linspace (1 # 10) (9 # 10) (length top) true) i)
    as [shade Hs]; [by rewrite length_linspace|].
  exists shade. cbv zeta. rewrite list_lookup_imap, lookup_zip_with, Hi.
  simpl. by rewrite Hs.
Qed.

(** C9.  The rose chart ranks the category sums in descending order, keeps
    the first twelve, and draws the i-th of the n kept categories as a
    polar bar at angle [i * (2/n)] of width [2/n] (both in units of pi)
    with the category sum as its radius; without any category it gives the
    insufficient-data outcome. *)
Theorem rose_chart_policy df agg :
  groupby_sum (category_column df) (quantity_first df) df = OK agg ->
  let ranked := sort_values_desc agg in
  let top := take 12 ranked in
  let n := length top in
  ranked ≡ₚ agg
  /\ StronglySorted (fun a b : Val * Z => snd b <= snd a) ranked
  /\ n = Nat.min 12 (length agg)
  /\ (agg = [] -> exists w, plot_rose_chart df = OK (NoFigure w))
  /\ (agg <> [] ->
      exists fig,
        plot_rose_chart df = OK (Drawn fig)
        /\ length fig = n
        /\ forall i g total,
             top !! i = Some (g, total) ->
             exists shade,
               fig !! i
               = Some (PolarBar
                         (inject_Z (Z.of_nat i)
                          * (2 / inject_Z (Z.of_nat n)))%Q
                         total
                         (2 / inject_Z (Z.of_nat n))%Q
                         shade)).
Proof.
  intros Hagg ranked top n.
  assert (Hperm : ranked ≡ₚ agg) by apply merge_sort_Permutation.
  assert (Hn : n = Nat.min 12 (length agg)).
  { unfold n, top. by rewrite length_take, Hperm. }
  split; [done|].
  split; [apply (StronglySorted_merge_sort value_desc)|].
  split; [done|].
  unfold plot_rose_chart, rose_table. rewrite Hagg. cbn [rbind].
  fold ranked. change (take rose_limit ranked) with top.
  split.
  - intros ->. by eexists.
  - intros Hne.
    assert (Htop : top <> []).
    { intros Ht. unfold n in Hn. rewrite Ht in Hn. simpl in Hn.
      destruct agg; [done|]. simpl in Hn. lia. }
    destruct top as [|[g0 t0] top'] eqn:Et; [done|].
    cbn [fmap list_fmap snd py_max rbind].
    eexists. split; [reflexivity|]. split.
    + unfold rose_bars. cbv zeta.
      rewrite length_imap, length_zip, length_linspace.
      unfold n. lia.
    + intros i g total Hi. exact (rose_bars_lookup _ i g total Hi).
Qed.

Lemma rose_chart_policy_witness :
  exists fig,
    plot_rose_chart four_orders = OK (Drawn fig)
    /\ length fig = 2%nat
    /\ exists shade,
         fig !! 1%nat = Some (PolarBar (1 * (2 / 2))%Q 3 (2 / 2)%Q shade).
Proof.
  destruct (rose_chart_policy four_orders
              [(Some (VStr "华北"), 4); (Some (VStr "华南"), 3)]
              ltac:(vm_compute; reflexivity))
    as (_ & _ & _ & _ & H).
  destruct H as (fig & Hfig & Hlen & Hbars); [done|].
  exists fig. split; [exact Hfig|]. split; [exact Hlen|].
  exact (Hbars 1%nat (Some (VStr "华南")) 3 eq_refl).
Defined.

(** ** Year and quarter come from one date *)

Lemma has_column_set_col c k df s :
  has_column c df = true -> has_column c (set_col df k s) = true.
Proof.
  rewrite !has_column_true. unfold set_col. simpl.
  destruct (has_column k df); [done|]. intros H.
  apply elem_of_app. by left.
Qed.

Lemma has_column_coerce td c df col :
  has_column c df = true -> has_column c (coerce_date_column td df col) = true.
Proof.
  intros H. unfold coerce_date_column.
  destruct (has_column col df); [|done]. by apply has_column_set_col.
Qed.

Lemma has_column_resolve_region c df df' :
  resolve_region df = OK df' ->
  has_column c df = true -> has_column c df' = true.
Proof.
  unfold resolve_region. intros H Hc. do 2 inv_bind H. injection H as <-.
  apply has_column_set_col.
  destruct (has_column "province" df); [|by injection Ha as <-].
  inv_bind Ha. destruct (has_column "region" df).
  - inv_bind Ha. injection Ha as <-. by apply has_column_set_col.
  - injection Ha as <-. by apply has_column_set_col.
Qed.

Lemma first_present_Some candidates df c :
  c ∈ candidates -> has_column c df = true ->
  is_Some (first_present candidates df).
Proof.
  intros Hin Hc. unfold first_present.
  destruct (List.find _ candidates) as [c'|] eqn:Hfind; [by eexists|].
  apply list_elem_of_In in Hin.
  pose proof (List.find_none _ _ Hfind _ Hin) as Hnone. simpl in Hnone.
  congruence.
Qed.

Lemma resolve_dates_year_quarter td df c :
  c ∈ date_candidates -> has_column c df = true ->
  exists d,
    column "year" (resolve_dates td df) = dt_year <$> d
    /\ column "quarter" (resolve_dates td df) = dt_quarter <$> d.
Proof.
  intros Hin Hc. unfold resolve_dates.
  set (df' := foldl (coerce_date_column td) df date_candidates).
  assert (Hc' : has_column c df' = true).
  { unfold df', date_candidates. simpl. by do 5 apply has_column_coerce. }
  destruct (first_present_Some _ _ _ Hin Hc') as [primary_date ->].
  eexists. split.
  - do 2 (rewrite column_set_col_ne by first [done | len]).
    rewrite column_set_col_eq; [reflexivity | len].
  - rewrite column_set_col_eq; [reflexivity | len].
Qed.

Lemma normalize_year_quarter td raw df c :
  c ∈ date_candidates -> has_column c raw = true ->
  normalize td raw = OK df ->
  exists d,
    column "year" df = dt_year <$> d /\ column "quarter" df = dt_quarter <$> d.
Proof.
  intros Hin Hc. unfold normalize. intros H. do 2 inv_bind H.
  pose proof (has_column_resolve_region c _ _ Ha Hc) as Hc1.
  destruct (resolve_dates_year_quarter td a c Hin Hc1) as (d & Hy & Hq).
  exists d.
  rewrite (resolve_quantity_column "year" _ _ ltac:(done) H),
    (resolve_quantity_column "quarter" _ _ ltac:(done) H),
    (resolve_amount_column "year" _ _ ltac:(done) Ha0),
    (resolve_amount_column "quarter" _ _ ltac:(done) Ha0).
  done.
Qed.

(** After [load_data] on a table with a date column, a row has a year
    exactly when it has a quarter. *)
Lemma load_data_year_quarter td raw df c :
  c ∈ date_candidates -> has_column c raw = true ->
  load_data td (OK raw) = Frame df ->
  Forall (fun r : Row => is_Some (r !! "year") <-> is_Some (r !! "quarter"))
         (rows df).
Proof.
  intros Hin Hc H. apply load_data_Frame in H as (raw' & [= <-] & Hn).
  destruct (normalize_year_quarter _ _ _ _ Hin Hc Hn) as (d & Hy & Hq).
  apply Forall_lookup. intros i r Hr.
  assert (Hyi : column "year" df !! i = Some (r !! "year"))
    by (unfold column; by rewrite list_lookup_fmap, Hr).
  assert (Hqi : column "quarter" df !! i = Some (r !! "quarter"))
    by (unfold column; by rewrite list_lookup_fmap, Hr).
  rewrite Hy, list_lookup_fmap in Hyi. rewrite Hq, list_lookup_fmap in Hqi.
  destruct (d !! i) as [v|]; [|discriminate].
  injection Hyi as <-. injection Hqi as <-.
  destruct v as [[| |]|]; simpl; split; intros [? ?]; done || by eexists.
Qed.

(** ** The quarterly comparison *)

Lemma same_kind_true l :
  same_kind l = true <-> forall x y, x ∈ l -> y ∈ l -> kind_of x = kind_of y.
Proof.
  destruct l as [|x0 l]; simpl.
  - split; [|done]. intros _ x y Hx. by apply elem_of_nil in Hx.
  - rewrite forallb_forall. split.
    + intros H x y Hx Hy.
      assert (Hk : forall z, z ∈ x0 :: l -> kind_of z = kind_of x0).
      { intros z Hz. apply elem_of_cons in Hz as [->|Hz]; [done|].
        apply list_elem_of_In in Hz. apply H in Hz.
        by apply bool_decide_eq_true in Hz. }
      by rewrite (Hk x Hx), (Hk y Hy).
    + intros H z Hz. apply bool_decide_eq_true. apply H.
      * apply elem_of_cons. right. by apply list_elem_of_In.
      * apply elem_of_cons. by left.
Qed.

Lemma same_kind_sub l l' :
  same_kind l = true -> (forall x, x ∈ l' -> x ∈ l) -> same_kind l' = true.
Proof.
  rewrite !same_kind_true. intros H Hsub x y Hx Hy. apply H; by apply Hsub.
Qed.

Lemma sorted_total l : same_kind l = true -> exists l', sorted l = OK l'.
Proof. intros H. unfold sorted. rewrite H. by eexists. Qed.

Lemma rmapM_keys {K V} (f : K -> Result (K * V)) l ys :
  (forall k p, f k = OK p -> fst p = k) ->
  rmapM f l = OK ys -> fst <$> ys = l.
Proof.
  intros Hf H. apply rmapM_Forall2 in H.
  induction H as [|k p l ys Hk _ IH]; [done|].
  rewrite fmap_cons. f_equal; [by apply Hf | exact IH].
Qed.

Lemma quarterly_table_keys df quarterly :
  quarterly_table df = OK quarterly ->
  let groups := unique (omap year_quarter (rows df)) in
  same_kind (Some ∘ fst <$> groups) = true
  /\ fst <$> quarterly = merge_sort pair_le groups.
Proof.
  unfold quarterly_table. intros H. do 3 inv_bind H. cbv zeta.
  destruct (same_kind (Some ∘ fst <$> _)) eqn:Hk; [|discriminate].
  destruct (same_kind (Some ∘ snd <$> _)); [|discriminate].
  simpl in H. split; [done|].
  apply (rmapM_keys _ _ _) in H; [done|].
  intros k p Hp. unfold quarter_sum in Hp. inv_bind Hp. by injection Hp as <-.
Qed.

Lemma elem_of_quarterly_keys df quarterly g :
  quarterly_table df = OK quarterly ->
  g ∈ fst <$> quarterly
  <-> exists r : Row, r ∈ rows df /\ year_quarter r = Some g.
Proof.
  intros H. destruct (quarterly_table_keys _ _ H) as [_ ->].
  rewrite merge_sort_Permutation, elem_of_unique, list_elem_of_omap. done.
Qed.

Lemma NoDup_quarterly_keys df quarterly :
  quarterly_table df = OK quarterly -> NoDup (fst <$> quarterly).
Proof.
  intros H. destruct (quarterly_table_keys _ _ H) as [_ ->].
  rewrite merge_sort_Permutation. apply NoDup_unique.
Qed.

Lemma year_quarter_Some (r : Row) c q :
  year_quarter r = Some (c, q)
  <-> r !! "year" = Some c /\ r !! "quarter" = Some q.
Proof.
  unfold year_quarter.
  destruct (r !! "year") as [y|], (r !! "quarter") as [q'|]; split;
    try (intros [= <- <-]; done); try (intros [[= <-] [= <-]]; done);
    try discriminate; intros [? ?]; discriminate.
Qed.

Lemma quarterly_years_spec df quarterly :
  quarterly_table df = OK quarterly ->
  exists years,
    quarterly_years quarterly = OK years
    /\ NoDup years
    /\ forall y,
         y ∈ years
         <-> exists r : Row,
               r ∈ rows df /\ r !! "year" = y /\ is_Some y
               /\ is_Some (r !! "quarter").
Proof.
  intros H. unfold quarterly_years.
  set (ys := unique ((fun g : Cell * Cell * Z => Some (fst (fst g)))
                       <$> quarterly)).
  assert (Hin : forall y, y ∈ ys
            <-> exists c q, y = Some c /\ (c, q) ∈ fst <$> quarterly).
  { intros y. unfold ys. rewrite elem_of_unique, list_elem_of_fmap. split.
    - intros ([[c q] t] & -> & Hg). exists c, q. split; [done|].
      apply list_elem_of_fmap. by exists (c, q, t).
    - intros (c & q & -> & Hg). apply list_elem_of_fmap in Hg as ([g t] & Hg & Ht).
      simpl in Hg. subst g. by exists (c, q, t). }
  destruct (sorted_total ys) as [years Hyears].
  { destruct (quarterly_table_keys _ _ H) as [Hk Hkeys].
    eapply same_kind_sub; [exact Hk|]. intros y Hy.
    apply Hin in Hy as (c & q & -> & Hg). rewrite Hkeys in Hg.
    rewrite merge_sort_Permutation in Hg.
    apply list_elem_of_fmap. by exists (c, q). }
  exists years. split; [done|]. split.
  - rewrite (sorted_Permutation _ _ Hyears). apply NoDup_unique.
  - intros y. rewrite (elem_of_sorted _ _ _ Hyears), Hin. split.
    + intros (c & q & -> & Hg).
      apply (elem_of_quarterly_keys _ _ _ H) in Hg as (r & Hr & Hyq).
      apply year_quarter_Some in Hyq as [Hy Hq].
      exists r. by rewrite Hq.
    + intros (r & Hr & Hy & [c Hc] & [q Hq]). subst y. exists c, q.
      split; [done|]. apply (elem_of_quarterly_keys _ _ _ H).
      exists r. split; [done|]. by apply year_quarter_Some.
Qed.

Lemma filter_none {A} (P : A -> Prop) `{!forall x, Decision (P x)} (l : list A) :
  (forall x, x ∈ l -> ~ P x) -> filter P l = [].
Proof.
  induction l as [|x l IH]; [done|]. intros Hall.
  rewrite filter_cons_False by (apply Hall; apply elem_of_cons; by left).
  apply IH. intros y Hy. apply Hall. apply elem_of_cons. by right.
Qed.

Lemma filter_key_unique {K V} `{EqDecision K} (l : list (K * V)) k t :
  NoDup (fst <$> l) -> (k, t) ∈ l ->
  filter (fun g : K * V => fst g = k) l = [(k, t)].
Proof.
  induction l as [|[k' t'] l IH]; intros Hnd Hin.
  - by apply elem_of_nil in Hin.
  - rewrite fmap_cons in Hnd. apply NoDup_cons in Hnd as [Hk' Hnd].
    apply elem_of_cons in Hin as [[= <- <-]|Hin].
    + rewrite filter_cons_True by done. f_equal.
      apply filter_none. intros [k2 t2] Hin2 Heq. simpl in *. subst k2.
      apply Hk'. apply list_elem_of_fmap. by exists (k, t2).
    + rewrite filter_cons_False; [by apply IH|].
      simpl. intros ->. apply Hk'. apply list_elem_of_fmap. by exists (k, t).
Qed.

Lemma year_data_filter (quarterly : list (Cell * Cell * Z)) c q :
  filter (fun g : Cell * Cell * Z => snd (fst g) = VNum q)
    (filter (fun g : Cell * Cell * Z => Some (fst (fst g)) = Some c) quarterly)
  = filter (fun g : Cell * Cell * Z => fst g = (c, VNum q)) quarterly.
Proof.
  rewrite list_filter_filter. apply list_filter_iff.
  intros [[c' q'] t]. simpl. split.
  - intros [-> [= ->]]. done.
  - intros [= -> ->]. done.
Qed.

(** Every cell of the grid holds the sum over the rows of that year and
    quarter, which is 0 when there is no such row. *)
Lemma quarter_cell df quarterly c q :
  quarterly_table df = OK quarterly ->
  sums_field (revenue_field df)
    (filter (fun r : Row => year_quarter r = Some (c, VNum q)) (rows df))
    (quarter_value
       (filter (fun g : Cell * Cell * Z => Some (fst (fst g)) = Some c)
          quarterly) q).
Proof.
  intros H. unfold quarter_value. rewrite year_data_filter.
  destruct (decide ((c, VNum q) ∈ fst <$> quarterly)) as [Hin|Hout].
  - apply list_elem_of_fmap in Hin as ([g t] & Hg & Hin). simpl in Hg. subst g.
    rewrite (filter_key_unique _ _ t (NoDup_quarterly_keys _ _ H) Hin).
    simpl. by eapply quarterly_table_entry.
  - assert (Hrows : filter (fun r : Row => year_quarter r = Some (c, VNum q))
                      (rows df) = []).
    { apply filter_none. intros r Hr Hyq. apply Hout.
      apply (elem_of_quarterly_keys _ _ _ H). by exists r. }
    assert (Hgroup : filter (fun g : Cell * Cell * Z => fst g = (c, VNum q))
                       quarterly = []).
    { apply filter_none. intros [g t] Hg Heq. simpl in Heq. subst g.
      apply Hout. apply list_elem_of_fmap. by exists (c, VNum q, t). }
    by rewrite Hrows, Hgroup.
Qed.

Lemma bar_groups_app (a b : list Artist) :
  bar_groups (a ++ b)%list = (bar_groups a ++ bar_groups b)%list.
Proof. unfold bar_groups. by rewrite fmap_app, concat_app. Qed.

Lemma bar_groups_cluster quarterly n i y :
  bar_groups (year_cluster quarterly n i y) = [(y, year_values quarterly y)].
Proof.
  unfold year_cluster. cbv zeta.
  set (labelled := filter _ _). unfold bar_groups.
  rewrite fmap_cons. simpl. f_equal.
  induction labelled as [|[x v] l IH]; [done|]. by rewrite fmap_cons.
Qed.

Lemma bar_groups_clusters quarterly n (at_ : nat -> nat) years :
  bar_groups
    (concat (imap (fun i => year_cluster quarterly n (at_ i)) years))
  = (fun y => (y, year_values quarterly y)) <$> years.
Proof.
  revert at_. induction years as [|y years IH]; intros at_; [done|].
  rewrite imap_cons, fmap_cons. cbn [concat].
  rewrite bar_groups_app, bar_groups_cluster. cbn [app]. f_equal.
  apply (IH (at_ ∘ S)).
Qed.

Lemma length_year_values quarterly y :
  length (year_values quarterly y) = 4%nat.
Proof. unfold year_values. by rewrite length_fmap. Qed.

Lemma grid_size quarterly (years : list Val) :
  length (concat
            (snd <$> ((fun y => (y, year_values quarterly y)) <$> years)))
  = (4 * length years)%nat.
Proof.
  induction years as [|y years IH]; [done|].
  rewrite !fmap_cons. cbn [concat snd].
  rewrite length_app, length_year_values, IH. cbn [length]. lia.
Qed.

(** C8.  With the [year] and [quarter] columns at hand the quarterly chart
    works on the distinct years of the rows that carry both, which are all
    the distinct years of the view when no row has a year without a
    quarter; unless there is none, it draws exactly one cluster per such
    year, each with the four bars of the quarters 1 to 4, so 4 times the
    number of years in all; and each bar holds the sum over the rows of
    its year and quarter, which is 0 when there is no such row. *)
Theorem quarterly_grid df quarterly :
  has_column "year" df = true ->
  has_column "quarter" df = true ->
  quarterly_table df = OK quarterly ->
  exists years,
    quarterly_years quarterly = OK years
    /\ NoDup years
    /\ (forall y,
          y ∈ years
          <-> exists r : Row,
                r ∈ rows df /\ r !! "year" = y /\ is_Some y
                /\ is_Some (r !! "quarter"))
    /\ (Forall (fun r : Row =>
                  is_Some (r !! "year") -> is_Some (r !! "quarter"))
               (rows df) ->
        years ≡ₚ unique (dropna (column "year" df)))
    /\ (years = [] -> exists w, plot_quarterly_comparison df = OK (NoFigure w))
    /\ (years <> [] ->
        exists fig,
          plot_quarterly_comparison df = OK (Drawn fig)
          /\ bar_groups fig
             = (fun y => (y, year_values quarterly y)) <$> years
          /\ length (concat (snd <$> bar_groups fig))
             = (4 * length years)%nat)
    /\ (forall c k q,
          Some c ∈ years ->
          quarter_numbers !! k = Some q ->
          exists total,
            year_values quarterly (Some c) !! k = Some total
            /\ sums_field (revenue_field df)
                 (filter (fun r : Row => year_quarter r = Some (c, VNum q))
                    (rows df)) total
            /\ ((forall r : Row,
                   r ∈ rows df -> year_quarter r <> Some (c, VNum q)) ->
                total = 0)).
Proof.
  intros Hy Hq Htable.
  destruct (quarterly_years_spec _ _ Htable) as (years & Hyears & Hnd & Hin).
  exists years. split; [done|]. split; [done|]. split; [done|].
  split.
  { intros Haligned. apply NoDup_Permutation; [done | apply NoDup_unique |].
    intros y. rewrite Hin, elem_of_unique, elem_of_dropna.
    unfold column. rewrite list_elem_of_fmap. split.
    - intros (r & Hr & <- & Hsome & _). split; [done|]. by exists r.
    - intros (Hsome & r & -> & Hr). exists r.
      rewrite Forall_forall in Haligned. auto. }
  unfold plot_quarterly_comparison. rewrite Hy, Hq, Htable.
  cbn [negb orb rbind]. rewrite Hyears. cbn [rbind].
  split; [|split].
  - intros ->. by eexists.
  - intros Hne.
    assert (Hlen : (length years =? 0)%nat = false).
    { apply Nat.eqb_neq. by destruct years. }
    rewrite Hlen. eexists. split; [reflexivity|].
    assert (Hgroups :
      bar_groups
        (concat (imap (year_cluster quarterly (length years)) years))
      = (fun y => (y, year_values quarterly y)) <$> years)
      by apply (bar_groups_clusters quarterly (length years) id years).
    split; [done|]. rewrite Hgroups. apply grid_size.
  - intros c k q _ Hk.
    exists (quarter_value
              (filter (fun g : Cell * Cell * Z =>
                         Some (fst (fst g)) = Some c) quarterly) q).
    split; [|split].
    + unfold year_values. by rewrite list_lookup_fmap, Hk.
    + by apply quarter_cell.
    + intros Hnone.
      pose proof (quarter_cell df quarterly c q Htable) as Hsum.
      rewrite filter_none in Hsum by done.
      unfold sums_field in Hsum. simpl in Hsum. by injection Hsum as <-.
Qed.

Lemma quarterly_grid_witness :
  exists fig,
    plot_quarterly_comparison four_orders = OK (Drawn fig)
    /\ bar_groups fig
       = [ (Some (VNum 2023), [0; 0; 0; 7000]);
           (Some (VNum 2024), [18000; 0; 0; 0]) ]
    /\ length (concat (snd <$> bar_groups fig)) = 8%nat.
Proof.
  destruct (quarterly_grid four_orders
              [ (VNum 2023, VNum 4, 7000); (VNum 2024, VNum 1, 18000) ]
              eq_refl eq_refl ltac:(vm_compute; reflexivity))
    as (years & Hyears & _ & _ & _ & _ & Hfig & _).
  vm_compute in Hyears. injection Hyears as <-.
  destruct Hfig as (fig & Hplot & Hgroups & Hsize); [done|].
  exists fig. split; [exact Hplot|]. split; [exact Hgroups | exact Hsize].
Defined.

(** ** Runs of the definitions on the sample tables *)

Example sorted_numbers :
  sorted [Some (VNum 3); Some (VNum 1); Some (VNum 2)]
  = OK [Some (VNum 1); Some (VNum 2); Some (VNum 3)].
Proof. reflexivity. Qed.

Example sorted_strings :
  sorted [Some (VStr "p10"); Some (VStr "p02"); Some (VStr "p01")]
  = OK [Some (VStr "p01"); Some (VStr "p02"); Some (VStr "p10")].
Proof. reflexivity. Qed.

Example sorted_mixed : sorted [Some (VNum 1); Some (VStr "a")] = Raise TypeError.
Proof. reflexivity. Qed.

Example unique_keeps_first_appearance :
  unique [3; 1; 3; 2; 1] = [3; 1; 2].
Proof. reflexivity. Qed.

Example regional_aggregate_of_three_amounts :
  exists df,
    load_data no_parse (OK three_amounts) = Frame df
    /\ region_stats df
       = OK [(Some (VStr "华南"), 150); (Some (VStr "华北"), 30)].
Proof. eexists. split; vm_compute; reflexivity. Qed.

Example two_months_are_joined_by_segments :
  exists labels,
    plot_monthly_trend (monthly_orders 2)
    = OK (Drawn (Plot [0; 1] [100; 200] true
                 :: Scatter [0; 1] [100; 200] :: labels)).
Proof. eexists. vm_compute. reflexivity. Qed.

Example five_months_are_smoothed :
  exists labels,
    plot_monthly_trend (monthly_orders 5)
    = OK (Drawn (SplineCurve 3 [0; 1; 2; 3; 4] [100; 200; 300; 400; 500] 300
                 :: Scatter [0; 1; 2; 3; 4] [100; 200; 300; 400; 500]
                 :: labels)).
Proof. eexists. vm_compute. reflexivity. Qed.

Example one_month_is_not_drawn :
  plot_monthly_trend (monthly_orders 1)
  = OK (NoFigure "数据点不足,无法绘制趋势图").
Proof. vm_compute. reflexivity. Qed.

Example default_view_of_eleven_products :
  rmap (fun v => length (rows v)) (sidebar_filters untouched eleven_products)
  = OK 10%nat.
Proof. vm_compute. reflexivity. Qed.

Example regional_bars_of_four_orders :
  exists fig,
    plot_regional_gradient_bars four_orders = OK (Drawn fig)
    /\ length fig = 203%nat
    /\ last fig = Some (Headline (Some (VStr "华北")) (Some (400 # 7))).
Proof. eexists. split; [vm_compute; reflexivity|]. split; reflexivity. Qed.

Example provincial_units_not_all_mapped :
  length provincial_units = 34%nat
  /\ NoDup provincial_units
  /\ ~ Forall (fun p => is_Some (REGION_MAPPING !! p)) provincial_units.
Proof.
  split; [done|]. split; [decide_by_computation|].
  intros H. rewrite Forall_forall in H.
  destruct (H "台湾省") as [g Hg]; [decide_by_computation|].
  vm_compute in Hg. discriminate.
Qed.

(** * Further properties *)

(** ** Columns through the steps of the normaliser *)

Lemma has_column_set_col_ne c k df s :
  c <> k -> has_column c (set_col df k s) = has_column c df.
Proof.
  intros Hne. unfold has_column at 1. unfold set_col. simpl.
  destruct (has_column k df); [done|].
  unfold has_column. apply bool_decide_ext. rewrite elem_of_app.
  split; [|by left]. intros [H|H]; [done|].
  apply list_elem_of_singleton in H. done.
Qed.

Lemma has_column_set_col_eq k df s : has_column k (set_col df k s) = true.
Proof.
  unfold has_column at 1. unfold set_col. simpl.
  destruct (has_column k df) eqn:Hk; [done|].
  apply bool_decide_eq_true, elem_of_app. right. by apply list_elem_of_singleton.
Qed.

Lemma columns_coerce td df col :
  columns (coerce_date_column td df col) = columns df.
Proof.
  unfold coerce_date_column. destruct (has_column col df) eqn:Hc; [|done].
  unfold set_col. simpl. by rewrite Hc.
Qed.

Lemma length_rows_coerce td df col :
  length (rows (coerce_date_column td df col)) = length (rows df).
Proof.
  unfold coerce_date_column. destruct (has_column col df); [|done]. len.
Qed.

Lemma column_coerce td df col k :
  column k (coerce_date_column td df col)
  = if bool_decide (k = col) && has_column col df
    then to_datetime_val td <$> column k df else column k df.
Proof.
  unfold coerce_date_column. destruct (has_column col df) eqn:Hc.
  - case_bool_decide as Hk; simpl.
    + subst k. apply column_set_col_eq. len.
    + apply column_set_col_ne; [done | len].
  - by rewrite andb_false_r.
Qed.

Lemma columns_coerce_all td l df :
  columns (foldl (coerce_date_column td) df l) = columns df.
Proof.
  revert df. induction l as [|c l IH]; intros df; [done|].
  simpl. by rewrite IH, columns_coerce.
Qed.

Lemma length_rows_coerce_all td l df :
  length (rows (foldl (coerce_date_column td) df l)) = length (rows df).
Proof.
  revert df. induction l as [|c l IH]; intros df; [done|].
  simpl. by rewrite IH, length_rows_coerce.
Qed.

(** After the loop over the candidates each candidate column that exists
    has been parsed once, and nothing else has changed. *)
Lemma column_coerce_all td l df k :
  NoDup l ->
  column k (foldl (coerce_date_column td) df l)
  = if bool_decide (k ∈ l) && has_column k df
    then to_datetime_val td <$> column k df else column k df.
Proof.
  revert df. induction l as [|c l IH]; intros df Hnd.
  - rewrite (bool_decide_eq_false_2 (k ∈ [])) by apply not_elem_of_nil. done.
  - apply NoDup_cons in Hnd as [Hc Hnd]. cbn [foldl]. rewrite (IH _ Hnd).
    rewrite (has_column_sub k df _ (columns_coerce td df c)).
    rewrite column_coerce.
    destruct (decide (k = c)) as [->|Hne].
    + rewrite (bool_decide_eq_false_2 (c ∈ l) Hc). simpl.
      rewrite (bool_decide_eq_true_2 (c = c) eq_refl).
      rewrite (bool_decide_eq_true_2 (c ∈ c :: l)) by (apply elem_of_cons; by left).
      done.
    + rewrite (bool_decide_eq_false_2 (k = c) Hne). simpl.
      assert (Hiff : bool_decide (k ∈ l) = bool_decide (k ∈ c :: l)).
      { apply bool_decide_ext. rewrite elem_of_cons.
        split; [by right | by intros [?|?]]. }
      by rewrite Hiff.
Qed.

Lemma has_column_resolve_dates td df k :
  k ∉ derived_date_columns ->
  has_column k (resolve_dates td df) = has_column k df.
Proof.
  intros Hk. unfold resolve_dates.
  set (df' := foldl (coerce_date_column td) df date_candidates).
  assert (Hdf' : has_column k df' = has_column k df)
    by (apply has_column_sub, columns_coerce_all).
  assert (Hne : k <> "_primary_date" /\ k <> "year" /\ k <> "month"
                /\ k <> "quarter").
  { unfold derived_date_columns in Hk. rewrite !not_elem_of_cons in Hk.
    tauto. }
  destruct Hne as (? & ? & ? & ?).
  destruct (first_present date_candidates df'); [|done].
  by rewrite !has_column_set_col_ne.
Qed.

Lemma column_resolve_dates td df k :
  k ∉ derived_date_columns -> k ∉ date_candidates ->
  column k (resolve_dates td df) = column k df.
Proof.
  intros Hk Hc. unfold resolve_dates.
  set (df' := foldl (coerce_date_column td) df date_candidates).
  assert (Hdf' : column k df' = column k df).
  { unfold df'. rewrite column_coerce_all by decide_by_computation.
    by rewrite (bool_decide_eq_false_2 _ Hc). }
  assert (Hne : k <> "_primary_date" /\ k <> "year" /\ k <> "month"
                /\ k <> "quarter").
  { unfold derived_date_columns in Hk. rewrite !not_elem_of_cons in Hk.
    tauto. }
  destruct Hne as (? & ? & ? & ?).
  destruct (first_present date_candidates df'); [|done].
  rewrite <- Hdf'.
  rewrite !column_set_col_ne; [done | done | len | done | len | done | len
                              | done | len].
Qed.

Lemma length_rows_resolve_dates td df :
  length (rows (resolve_dates td df)) = length (rows df).
Proof.
  rewrite <- (length_column "region"), resolve_dates_region.
  apply length_column.
Qed.

Lemma first_present_ext l df df' :
  (forall c, c ∈ l -> has_column c df' = has_column c df) ->
  first_present l df' = first_present l df.
Proof.
  unfold first_present. induction l as [|c l IH]; intros H; [done|].
  simpl. rewrite (H c) by (apply elem_of_cons; by left).
  destruct (has_column c df); [done|].
  apply IH. intros c' Hc'. apply H. apply elem_of_cons. by right.
Qed.

Lemma first_present_elem l df c :
  first_present l df = Some c -> c ∈ l /\ has_column c df = true.
Proof.
  unfold first_present. intros H. apply List.find_some in H as [Hin Hc].
  split; [by apply list_elem_of_In | done].
Qed.

Lemma has_column_resolve_region_ne k df df' :
  k <> "region" ->
  resolve_region df = OK df' -> has_column k df' = has_column k df.
Proof.
  intros Hk. unfold resolve_region. intros H. do 2 inv_bind H.
  injection H as <-. rewrite has_column_set_col_ne by done.
  destruct (has_column "province" df); [|by injection Ha as <-].
  inv_bind Ha. destruct (has_column "region" df).
  - inv_bind Ha. injection Ha as <-. by apply has_column_set_col_ne.
  - injection Ha as <-. by apply has_column_set_col_ne.
Qed.

Lemma column_resolve_region_ne k df df' :
  k <> "region" ->
  resolve_region df = OK df' -> column k df' = column k df.
Proof.
  intros Hk. unfold resolve_region. intros H. do 2 inv_bind H.
  injection H as <-. apply get_col_OK in Ha0 as [_ ->].
  rewrite column_set_col_ne; [|done|unfold fillna_const; len].
  destruct (has_column "province" df); [|by injection Ha as <-].
  inv_bind Ha. apply get_col_OK in Ha0 as [_ ->].
  destruct (has_column "region" df).
  - inv_bind Ha. injection Ha as <-. apply get_col_OK in Ha0 as [_ ->].
    apply column_set_col_ne; [done|].
    unfold fillna, series_map. rewrite length_zip_with. len. lia.
  - injection Ha as <-. apply column_set_col_ne; [done|].
    unfold series_map. len.
Qed.

Lemma resolve_region_total df :
  has_column "region" df || has_column "province" df = true ->
  exists df', resolve_region df = OK df'.
Proof.
  intros H. unfold resolve_region.
  destruct (has_column "province" df) eqn:Hp.
  - unfold get_col at 1. rewrite Hp. cbn [rbind].
    destruct (has_column "region" df) eqn:Hr.
    + unfold get_col at 1. rewrite Hr. cbn [rbind].
      unfold get_col. rewrite has_column_set_col_eq. by eexists.
    + cbn [rbind]. unfold get_col. rewrite has_column_set_col_eq.
      by eexists.
  - rewrite orb_false_r in H. cbn [rbind]. unfold get_col. rewrite H.
    by eexists.
Qed.

Lemma elem_of_list_cases {A} (P : A -> Prop) (l : list A) :
  Forall P l -> forall x, x ∈ l -> P x.
Proof. intros H x Hx. by eapply Forall_forall in H. Qed.

Lemma has_column_resolve_amount_ne k df df' :
  k <> "_amount" ->
  resolve_amount df = OK df' -> has_column k df' = has_column k df.
Proof.
  intros Hk. unfold resolve_amount.
  destruct (first_present amount_candidates df) as [amount_col|].
  - intros H. inv_bind H. injection H as <-. by apply has_column_set_col_ne.
  - destruct (has_column "quantity" df && has_column "unit_price" df);
      [|by intros [= <-]].
    intros H. do 3 inv_bind H. injection H as <-.
    by apply has_column_set_col_ne.
Qed.

Lemma has_column_resolve_quantity_ne k df df' :
  k <> "_quantity" ->
  resolve_quantity df = OK df' -> has_column k df' = has_column k df.
Proof.
  intros Hk. unfold resolve_quantity. destruct (has_column "quantity" df);
    [|by intros [= <-]].
  intros H. inv_bind H. injection H as <-. by apply has_column_set_col_ne.
Qed.

Lemma resolve_amount_total df :
  is_Some (first_present amount_candidates df)
  \/ has_column "quantity" df && has_column "unit_price" df = false ->
  exists df', resolve_amount df = OK df'.
Proof.
  intros H. unfold resolve_amount.
  destruct (first_present amount_candidates df) as [c|] eqn:Hc.
  - apply first_present_elem in Hc as [_ Hc]. unfold get_col. rewrite Hc.
    by eexists.
  - destruct H as [[? ?] | ->]; [done|]. by eexists.
Qed.

Lemma resolve_quantity_total df : exists df', resolve_quantity df = OK df'.
Proof.
  unfold resolve_quantity, get_col.
  destruct (has_column "quantity" df); by eexists.
Qed.

(** The first two steps leave the membership of every column they do not
    write as it was in the raw table. *)
Lemma has_column_before_amount td raw df1 k :
  resolve_region raw = OK df1 ->
  k <> "region" -> k ∉ derived_date_columns ->
  has_column k (resolve_dates td df1) = has_column k raw.
Proof.
  intros H1 Hr Hd. rewrite has_column_resolve_dates by done.
  by apply has_column_resolve_region_ne.
Qed.

Lemma first_present_amount_raw td raw df1 :
  resolve_region raw = OK df1 ->
  first_present amount_candidates (resolve_dates td df1)
  = first_present amount_candidates raw.
Proof.
  intros H1. apply first_present_ext. apply elem_of_list_cases.
  unfold amount_candidates.
  repeat (constructor;
          [apply (has_column_before_amount td raw df1);
           [done | done | decide_by_computation]|]).
  constructor.
Qed.

(** X1.  [load_data] hands back a frame, with all the rows of the raw
    table, for every table that has a [region] or a [province] column and
    that either has one of the amount columns or lacks one of [quantity]
    and [unit_price]. *)
Theorem load_data_succeeds td raw :
  has_column "region" raw || has_column "province" raw = true ->
  is_Some (first_present amount_candidates raw)
  \/ has_column "quantity" raw && has_column "unit_price" raw = false ->
  exists df,
    load_data td (OK raw) = Frame df /\ length (rows df) = length (rows raw).
Proof.
  intros Hregion Hamount.
  destruct (resolve_region_total raw Hregion) as [df1 H1].
  destruct (resolve_amount_total (resolve_dates td df1)) as [df3 H3].
  { rewrite (first_present_amount_raw td raw df1 H1).
    rewrite !(has_column_before_amount td raw df1) by
      (first [done | decide_by_computation]).
    done. }
  destruct (resolve_quantity_total df3) as [df H4].
  assert (Hn : normalize td raw = OK df).
  { unfold normalize. rewrite H1. cbn [rbind]. rewrite H3. cbn [rbind]. done. }
  exists df. split.
  - unfold load_data. cbn [rbind]. by rewrite Hn.
  - apply normalize_region in Hn as [_ Hcol].
    rewrite <- (length_column "region" df), Hcol. by rewrite length_fmap.
Qed.

Lemma load_data_succeeds_witness :
  exists df,
    load_data no_parse (OK provinces_only) = Frame df
    /\ length (rows df) = length (rows provinces_only).
Proof.
  apply load_data_succeeds; [reflexivity | right; reflexivity].
Defined.

(** X2.  The region resolution fills only what is missing: a region the
    raw row already holds is kept, whatever its province; a row without
    one, in a table with a [province] column, gets the region its
    province maps to. *)
Theorem region_fills_only_missing td raw df i (r0 : Row) :
  load_data td (OK raw) = Frame df ->
  rows raw !! i = Some r0 ->
  exists r : Row,
    rows df !! i = Some r
    /\ (forall c,
          has_column "region" raw = true -> r0 !! "region" = Some c ->
          r !! "region" = Some c)
    /\ (forall p g,
          has_column "region" raw = false \/ r0 !! "region" = None ->
          has_column "province" raw = true ->
          r0 !! "province" = Some (VStr p) ->
          REGION_MAPPING !! p = Some g ->
          r !! "region" = Some (VStr g)).
Proof.
  intros Hload Hi.
  destruct (load_data_row_region td raw df i r0 Hload Hi) as (r & Hr & Hv).
  exists r. split; [done|]. split.
  - intros c Hc Hreg. rewrite Hv, Hc. unfold region_of. by rewrite Hreg.
  - intros p g Hmissing Hp Hprov Hg. rewrite Hv, Hp. unfold region_of.
    rewrite Hprov. unfold map_val. rewrite Hg.
    cbn [fmap option_fmap option_map].
    destruct Hmissing as [-> | Hnone]; [done|].
    rewrite Hnone. by destruct (has_column "region" raw).
Qed.

Lemma region_fills_only_missing_witness :
  exists r : Row,
    rows (frame_of (load_data no_parse (OK provinces_only))) !! 0%nat = Some r
    /\ r !! "region" = Some (VStr "华南").
Proof.
  destruct (region_fills_only_missing no_parse provinces_only
              (frame_of (load_data no_parse (OK provinces_only))) 0%nat
              {[ "province" := VStr "广东省"; "quantity" := VNum 2 ]}
              ltac:(vm_compute; reflexivity) ltac:(vm_compute; reflexivity))
    as (r & Hr & _ & Hfill).
  exists r. split; [exact Hr|].
  apply (Hfill "广东省" "华南");
    [by left | vm_compute; reflexivity | vm_compute; reflexivity
    | vm_compute; reflexivity].
Defined.

(** ** Date resolution *)

Lemma resolve_dates_Some td df c :
  first_present date_candidates
    (foldl (coerce_date_column td) df date_candidates) = Some c ->
  let d := column c (foldl (coerce_date_column td) df date_candidates) in
  column "_primary_date" (resolve_dates td df) = d
  /\ column "year" (resolve_dates td df) = dt_year <$> d
  /\ column "month" (resolve_dates td df) = dt_month <$> d
  /\ column "quarter" (resolve_dates td df) = dt_quarter <$> d.
Proof.
  intros Hc d. unfold resolve_dates. rewrite Hc. fold d.
  set (df' := foldl (coerce_date_column td) df date_candidates) in *.
  assert (Hd : column "_primary_date" (set_col df' "_primary_date" d) = d)
    by (apply column_set_col_eq; unfold d; len).
  rewrite Hd.
  assert (Hlen : length d = length (rows df')) by (unfold d; len).
  repeat split.
  - do 3 (rewrite column_set_col_ne by first [done | len]). done.
  - do 2 (rewrite column_set_col_ne by first [done | len]).
    rewrite column_set_col_eq; [done | len].
  - rewrite column_set_col_ne by first [done | len].
    rewrite column_set_col_eq; [done | len].
  - rewrite column_set_col_eq; [done | len].
Qed.

Lemma first_present_date_raw td raw df1 :
  resolve_region raw = OK df1 ->
  first_present date_candidates
    (foldl (coerce_date_column td) df1 date_candidates)
  = first_present date_candidates raw.
Proof.
  intros H1. apply first_present_ext. apply elem_of_list_cases.
  unfold date_candidates at 2.
  repeat (constructor;
          [rewrite (has_column_sub _ df1 _ (columns_coerce_all td _ df1));
           by apply has_column_resolve_region_ne|]).
  constructor.
Qed.

(** X3.  The date resolution picks one column for the whole table, the
    first of the candidates the raw table has; [_primary_date] is that
    column parsed cell by cell, and [year], [month] and [quarter] are read
    off [_primary_date].  Without any candidate column the four derived
    columns are not written. *)
Theorem primary_date_resolution td raw df :
  load_data td (OK raw) = Frame df ->
  (forall c,
     first_present date_candidates raw = Some c ->
     column "_primary_date" df = to_datetime_val td <$> column c raw
     /\ column "year" df = dt_year <$> column "_primary_date" df
     /\ column "month" df = dt_month <$> column "_primary_date" df
     /\ column "quarter" df = dt_quarter <$> column "_primary_date" df)
  /\ (first_present date_candidates raw = None ->
      forall k,
        k ∈ derived_date_columns ->
        has_column k df = has_column k raw /\ column k df = column k raw).
Proof.
  intros H. apply load_data_Frame in H as (raw' & [= <-] & Hn).
  unfold normalize in Hn. inv_bind Hn. inv_bind Hn.
  rename a into df1, a0 into df3, Ha into H1, Ha0 into H3, Hn into H4.
  pose proof (first_present_date_raw td raw df1 H1) as Hfirst.
  split.
  - intros c Hc. rewrite <- Hfirst in Hc.
    destruct (resolve_dates_Some td df1 c Hc) as (Hp & Hy & Hm & Hq).
    rewrite Hfirst in Hc. apply first_present_elem in Hc as [Hin Hhas].
    assert (Hne : c <> "region").
    { intros ->. revert Hin. apply (bool_decide_unpack _). by vm_compute. }
    assert (Hd : column c (foldl (coerce_date_column td) df1 date_candidates)
                 = to_datetime_val td <$> column c raw).
    { rewrite column_coerce_all by decide_by_computation.
      rewrite (bool_decide_eq_true_2 _ Hin).
      rewrite (has_column_resolve_region_ne c raw df1 Hne H1), Hhas.
      simpl. by rewrite (column_resolve_region_ne c raw df1 Hne H1). }
    rewrite Hd in *.
    assert (Hkeep : forall k, k <> "_amount" -> k <> "_quantity" ->
              column k df = column k (resolve_dates td df1)).
    { intros k Hka Hkq. by rewrite (resolve_quantity_column k _ _ Hkq H4),
        (resolve_amount_column k _ _ Hka H3). }
    rewrite !Hkeep by done. rewrite Hp. done.
  - intros Hnone k Hk. rewrite <- Hfirst in Hnone.
    assert (Hres : resolve_dates td df1
                   = foldl (coerce_date_column td) df1 date_candidates).
    { unfold resolve_dates. by rewrite Hnone. }
    assert (Hk' : k <> "region" /\ k <> "_amount" /\ k <> "_quantity"
                  /\ k ∉ date_candidates).
    { revert k Hk. apply elem_of_list_cases. unfold derived_date_columns.
      repeat (constructor;
              [repeat split; try done; decide_by_computation|]).
      constructor. }
    destruct Hk' as (Hr & Ha & Hq & Hc).
    split.
    + rewrite (has_column_resolve_quantity_ne k _ _ Hq H4),
        (has_column_resolve_amount_ne k _ _ Ha H3), Hres,
        (has_column_sub _ df1 _ (columns_coerce_all td _ df1)).
      by apply has_column_resolve_region_ne.
    + rewrite (resolve_quantity_column k _ _ Hq H4),
        (resolve_amount_column k _ _ Ha H3), Hres,
        column_coerce_all by decide_by_computation.
      rewrite (bool_decide_eq_false_2 _ Hc). simpl.
      by apply column_resolve_region_ne.
Qed.

Lemma primary_date_resolution_witness :
  let df := frame_of (load_data day_parse (OK undated_orders)) in
  column "_primary_date" df
  = to_datetime_val day_parse <$> column "payment_date" undated_orders
  /\ column "year" df = dt_year <$> column "_primary_date" df.
Proof.
  intros df.
  destruct (primary_date_resolution day_parse undated_orders df
              ltac:(vm_compute; reflexivity)) as [H _].
  destruct (H "payment_date" ltac:(vm_compute; reflexivity))
    as (Hp & Hy & _).
  split; [exact Hp | exact Hy].
Defined.

(** ** Amount and quantity resolution *)

Lemma column_before_amount td raw df1 k :
  resolve_region raw = OK df1 ->
  k <> "region" -> k ∉ derived_date_columns -> k ∉ date_candidates ->
  column k (resolve_dates td df1) = column k raw.
Proof.
  intros H1 Hr Hd Hc. rewrite column_resolve_dates by done.
  by apply column_resolve_region_ne.
Qed.

Lemma resolve_amount_Some df df' c :
  first_present amount_candidates df = Some c ->
  resolve_amount df = OK df' ->
  has_column "_amount" df' = true /\ column "_amount" df' = column c df.
Proof.
  intros Hc. unfold resolve_amount. rewrite Hc. intros H. inv_bind H.
  injection H as <-. apply get_col_OK in Ha as [_ ->].
  split; [apply has_column_set_col_eq | apply column_set_col_eq; len].
Qed.

Lemma resolve_amount_product df df' :
  first_present amount_candidates df = None ->
  has_column "quantity" df && has_column "unit_price" df = true ->
  resolve_amount df = OK df' ->
  has_column "_amount" df' = true
  /\ series_mul (column "quantity" df) (column "unit_price" df)
     = OK (column "_amount" df').
Proof.
  intros Hc Hqp. unfold resolve_amount. rewrite Hc, Hqp. intros H.
  do 3 inv_bind H. injection H as <-.
  apply get_col_OK in Ha as [_ ->]. apply get_col_OK in Ha0 as [_ ->].
  split; [apply has_column_set_col_eq|].
  rewrite column_set_col_eq; [done|].
  apply series_mul_length in Ha1. rewrite Ha1. len. lia.
Qed.

Lemma resolve_amount_none df df' :
  first_present amount_candidates df = None ->
  has_column "quantity" df && has_column "unit_price" df = false ->
  resolve_amount df = OK df' -> df' = df.
Proof.
  intros Hc Hqp. unfold resolve_amount. rewrite Hc, Hqp. by intros [= <-].
Qed.

Lemma resolve_quantity_spec df df' :
  resolve_quantity df = OK df' ->
  if has_column "quantity" df
  then has_column "_quantity" df' = true
       /\ column "_quantity" df' = column "quantity" df
  else df' = df.
Proof.
  unfold resolve_quantity. destruct (has_column "quantity" df);
    [|by intros [= <-]].
  intros H. inv_bind H. injection H as <-. apply get_col_OK in Ha as [_ ->].
  split; [apply has_column_set_col_eq | apply column_set_col_eq; len].
Qed.

(** X4.  [_amount] is the first amount column the raw table has, in the
    fixed order of the candidates; without any, it is quantity times unit
    price when the table has both, and is not written otherwise.
    [_quantity] is the [quantity] column when there is one. *)
Theorem amount_resolution td raw df :
  load_data td (OK raw) = Frame df ->
  (forall c,
     first_present amount_candidates raw = Some c ->
     has_column "_amount" df = true /\ column "_amount" df = column c raw)
  /\ (first_present amount_candidates raw = None ->
      has_column "quantity" raw && has_column "unit_price" raw = true ->
      has_column "_amount" df = true
      /\ series_mul (column "quantity" raw) (column "unit_price" raw)
         = OK (column "_amount" df))
  /\ (first_present amount_candidates raw = None ->
      has_column "quantity" raw && has_column "unit_price" raw = false ->
      has_column "_amount" df = has_column "_amount" raw
      /\ column "_amount" df = column "_amount" raw)
  /\ (if has_column "quantity" raw
      then has_column "_quantity" df = true
           /\ column "_quantity" df = column "quantity" raw
      else has_column "_quantity" df = has_column "_quantity" raw
           /\ column "_quantity" df = column "_quantity" raw).
Proof.
  intros H. apply load_data_Frame in H as (raw' & [= <-] & Hn).
  unfold normalize in Hn. inv_bind Hn. inv_bind Hn.
  rename a into df1, a0 into df3, Ha into H1, Ha0 into H3, Hn into H4.
  set (df2 := resolve_dates td df1) in *.
  assert (Hhas : forall k, k <> "region" -> k ∉ derived_date_columns ->
            has_column k df2 = has_column k raw)
    by (intros k; apply (has_column_before_amount td raw df1 k H1)).
  assert (Hcol : forall k, k <> "region" -> k ∉ derived_date_columns ->
            k ∉ date_candidates -> column k df2 = column k raw)
    by (intros k; apply (column_before_amount td raw df1 k H1)).
  assert (Hfirst : first_present amount_candidates df2
                   = first_present amount_candidates raw)
    by apply (first_present_amount_raw td raw df1 H1).
  assert (Hq2 : has_column "quantity" df2 = has_column "quantity" raw)
    by (apply Hhas; [done | decide_by_computation]).
  assert (Hu2 : has_column "unit_price" df2 = has_column "unit_price" raw)
    by (apply Hhas; [done | decide_by_computation]).
  assert (Hkeep : has_column "_amount" df = has_column "_amount" df3
                  /\ column "_amount" df = column "_amount" df3).
  { split; [by apply has_column_resolve_quantity_ne
           | by apply resolve_quantity_column]. }
  destruct Hkeep as [Hkeep1 Hkeep2].
  split; [|split; [|split]].
  - intros c Hc. rewrite <- Hfirst in Hc.
    destruct (resolve_amount_Some _ _ _ Hc H3) as [Hh Hv].
    rewrite Hkeep1, Hkeep2, Hh, Hv. split; [done|].
    rewrite Hfirst in Hc. apply first_present_elem in Hc as [Hin _].
    clear Hv. revert c Hin. apply elem_of_list_cases. unfold amount_candidates.
    repeat (constructor;
            [apply Hcol; [done | decide_by_computation
                         | decide_by_computation]|]).
    constructor.
  - intros Hnone Hqp. rewrite <- Hfirst in Hnone.
    rewrite <- Hq2, <- Hu2 in Hqp.
    destruct (resolve_amount_product _ _ Hnone Hqp H3) as [Hh Hv].
    rewrite Hkeep1, Hkeep2, Hh. split; [done|].
    rewrite <- Hv. f_equal; symmetry;
      (apply Hcol; [done | decide_by_computation | decide_by_computation]).
  - intros Hnone Hqp. rewrite <- Hfirst in Hnone.
    rewrite <- Hq2, <- Hu2 in Hqp.
    rewrite (resolve_amount_none _ _ Hnone Hqp H3) in *.
    rewrite Hkeep1, Hkeep2. split.
    + apply Hhas; [done | decide_by_computation].
    + apply Hcol; [done | decide_by_computation | decide_by_computation].
  - pose proof (resolve_quantity_spec _ _ H4) as Hq.
    assert (Hq3 : has_column "quantity" df3 = has_column "quantity" raw).
    { rewrite <- Hq2. by apply has_column_resolve_amount_ne. }
    rewrite Hq3 in Hq. clear Hq3.
    destruct (has_column "quantity" raw).
    + destruct Hq as [Hh Hv]. split; [done|]. rewrite Hv.
      rewrite (resolve_amount_column "quantity" _ _ ltac:(done) H3).
      apply Hcol; [done | decide_by_computation | decide_by_computation].
    + subst df. split.
      * rewrite (has_column_resolve_amount_ne "_quantity" _ _ ltac:(done) H3).
        apply Hhas; [done | decide_by_computation].
      * rewrite (resolve_amount_column "_quantity" _ _ ltac:(done) H3).
        apply Hcol; [done | decide_by_computation | decide_by_computation].
Qed.

Lemma amount_resolution_witness :
  series_mul (column "quantity" orders_with_region)
    (column "unit_price" orders_with_region)
  = OK (column "_amount"
          (frame_of (load_data no_parse (OK orders_with_region)))).
Proof.
  destruct (amount_resolution no_parse orders_with_region
              (frame_of (load_data no_parse (OK orders_with_region)))
              ltac:(vm_compute; reflexivity)) as (_ & H & _).
  destruct (H ltac:(vm_compute; reflexivity) ltac:(vm_compute; reflexivity))
    as [_ Hmul].
  exact Hmul.
Defined.

(** ** Columns the normaliser does not write *)

Lemma has_column_resolve_dates_mono td df c :
  has_column c df = true -> has_column c (resolve_dates td df) = true.
Proof.
  intros H. unfold resolve_dates.
  set (df' := foldl (coerce_date_column td) df date_candidates).
  assert (Hdf' : has_column c df' = true).
  { unfold df'.
    by rewrite (has_column_sub c df _ (columns_coerce_all td _ df)). }
  destruct (first_present date_candidates df'); [|done].
  by do 4 apply has_column_set_col.
Qed.

Lemma has_column_resolve_amount_mono df df' c :
  resolve_amount df = OK df' ->
  has_column c df = true -> has_column c df' = true.
Proof.
  unfold resolve_amount.
  destruct (first_present amount_candidates df) as [amount_col|].
  - intros H Hc. inv_bind H. injection H as <-. by apply has_column_set_col.
  - destruct (has_column "quantity" df && has_column "unit_price" df);
      [|by intros [= <-]].
    intros H Hc. do 3 inv_bind H. injection H as <-.
    by apply has_column_set_col.
Qed.

Lemma has_column_resolve_quantity_mono df df' c :
  resolve_quantity df = OK df' ->
  has_column c df = true -> has_column c df' = true.
Proof.
  unfold resolve_quantity. destruct (has_column "quantity" df);
    [|by intros [= <-]].
  intros H Hc. inv_bind H. injection H as <-. by apply has_column_set_col.
Qed.

(** X5.  [load_data] drops no column, and a column that is none of the ones
    it writes (region, the date candidates, the derived date columns,
    [_amount], [_quantity]) comes out with the cells it had. *)
Theorem load_data_keeps_other_columns td raw df :
  load_data td (OK raw) = Frame df ->
  (forall c, has_column c raw = true -> has_column c df = true)
  /\ (forall k,
        k ∉ normaliser_columns ->
        has_column k df = has_column k raw /\ column k df = column k raw).
Proof.
  intros H. apply load_data_Frame in H as (raw' & [= <-] & Hn).
  unfold normalize in Hn. inv_bind Hn. inv_bind Hn.
  rename a into df1, a0 into df3, Ha into H1, Ha0 into H3, Hn into H4.
  split.
  - intros c Hc.
    apply (has_column_resolve_quantity_mono _ _ _ H4).
    apply (has_column_resolve_amount_mono _ _ _ H3).
    apply has_column_resolve_dates_mono.
    by apply (has_column_resolve_region _ _ _ H1).
  - intros k Hk. unfold normaliser_columns in Hk.
    apply not_elem_of_cons in Hk as [Hr Hk].
    apply not_elem_of_app in Hk as [Hc Hk].
    apply not_elem_of_app in Hk as [Hd Hk].
    apply not_elem_of_cons in Hk as [Ha Hk].
    apply not_elem_of_cons in Hk as [Hq _].
    split.
    + rewrite (has_column_resolve_quantity_ne k _ _ Hq H4),
        (has_column_resolve_amount_ne k _ _ Ha H3).
      by apply (has_column_before_amount td raw df1).
    + rewrite (resolve_quantity_column k _ _ Hq H4),
        (resolve_amount_column k _ _ Ha H3).
      by apply (column_before_amount td raw df1).
Qed.

Lemma load_data_keeps_other_columns_witness :
  let df := frame_of (load_data no_parse (OK orders_with_region)) in
  has_column "remark" df = true
  /\ column "remark" df = column "remark" orders_with_region.
Proof.
  intros df.
  destruct (load_data_keeps_other_columns no_parse orders_with_region df
              ltac:(vm_compute; reflexivity)) as [Hmono Hkeep].
  split; [apply Hmono; vm_compute; reflexivity|].
  apply Hkeep. decide_by_computation.
Defined.

(** ** The view of the sidebar *)

Lemma filter_ext_elem {A} (P Q : A -> Prop) `{!forall x, Decision (P x)}
    `{!forall x, Decision (Q x)} (l : list A) :
  (forall x, x ∈ l -> P x <-> Q x) -> filter P l = filter Q l.
Proof.
  induction l as [|x l IH]; intros Hext; [done|].
  assert (IH' : filter P l = filter Q l).
  { apply IH. intros y Hy. apply Hext. apply elem_of_cons. by right. }
  assert (Hx : P x <-> Q x) by (apply Hext; apply elem_of_cons; by left).
  rewrite !filter_cons.
  destruct (decide (P x)) as [HP|HP], (decide (Q x)) as [HQ|HQ];
    rewrite ?IH'; try done; tauto.
Qed.

Lemma apply_selection_rows col selected df df' :
  apply_selection col selected df = OK df' ->
  columns df' = columns df
  /\ rows df' = filter (passes col selected) (rows df).
Proof.
  unfold apply_selection. destruct (truthy selected) eqn:Ht.
  - unfold filter_isin. intros H. inv_bind H. injection H as <-. simpl.
    split; [done|]. apply list_filter_iff. intros r. unfold passes, isin.
    rewrite Ht. split.
    + intros Hin. right. by apply bool_decide_unpack in Hin.
    + intros [?|Hin]; [done|]. by apply bool_decide_pack.
  - intros [= <-]. split; [done|]. symmetry. apply filter_all.
    apply Forall_true. intros r. by left.
Qed.

Lemma apply_selection_has col selected df :
  has_column col df = true ->
  apply_selection col selected df
  = OK {| columns := columns df;
          rows := filter (passes col selected) (rows df) |}.
Proof.
  intros Hc.
  destruct (apply_selection col selected df) as [df'|e] eqn:H.
  - destruct (apply_selection_rows _ _ _ _ H) as [Hcols Hrows].
    destruct df' as [cs rs]. simpl in *. by subst.
  - unfold apply_selection in H. destruct (truthy selected); [|done].
    unfold filter_isin, get_col in H. by rewrite Hc in H.
Qed.

Lemma sidebar_filters_rows ui df view :
  sidebar_filters ui df = OK view ->
  exists sy sr sp,
    select_years ui df = OK sy
    /\ select_regions ui df = OK sr
    /\ select_products ui df = OK sp
    /\ columns view = columns df
    /\ rows view
       = filter (fun r : Row =>
                   passes "year" sy r /\ passes "region" sr r
                   /\ passes "product_name" sp r) (rows df).
Proof.
  unfold sidebar_filters. intros H. do 5 inv_bind H.
  rename a into sy, a0 into sr, a1 into sp.
  destruct (apply_selection_rows _ _ _ _ Ha2) as [Hc1 Hr1].
  destruct (apply_selection_rows _ _ _ _ Ha3) as [Hc2 Hr2].
  destruct (apply_selection_rows _ _ _ _ H) as [Hc3 Hr3].
  exists sy, sr, sp. split; [done|]. split; [done|]. split; [done|].
  split; [by rewrite Hc3, Hc2, Hc1|].
  rewrite Hr3, Hr2, Hr1, !list_filter_filter.
  apply list_filter_iff. intros r. tauto.
Qed.

(** X6.  The view of the sidebar has the columns of the frame; its rows
    are a sublist of the rows of the frame (the same order, nothing
    added); and a row of the frame is in the view exactly when it passes
    the year selection and the region selection and the product
    selection. *)
Theorem sidebar_filters_conjunction ui df view :
  sidebar_filters ui df = OK view ->
  columns view = columns df
  /\ rows view `sublist_of` rows df
  /\ exists sy sr sp,
       select_years ui df = OK sy
       /\ select_regions ui df = OK sr
       /\ select_products ui df = OK sp
       /\ forall r : Row,
            r ∈ rows view
            <-> r ∈ rows df
                /\ passes "year" sy r /\ passes "region" sr r
                /\ passes "product_name" sp r.
Proof.
  intros H.
  destruct (sidebar_filters_rows _ _ _ H)
    as (sy & sr & sp & Hy & Hr & Hp & Hcols & Hrows).
  split; [done|]. split; [rewrite Hrows; apply sublist_filter|].
  exists sy, sr, sp. split; [done|]. split; [done|]. split; [done|].
  intros r. rewrite Hrows, list_elem_of_filter. tauto.
Qed.

Lemma sidebar_filters_conjunction_witness :
  let view :=
    result_frame
      (sidebar_filters
         {| pick_years := Some [Some (VNum 2024)];
            pick_regions := Some [Some (VStr "华北")];
            pick_products := None |} four_orders) in
  columns view = columns four_orders
  /\ rows view `sublist_of` rows four_orders.
Proof.
  intros view.
  destruct (sidebar_filters_conjunction
              {| pick_years := Some [Some (VNum 2024)];
                 pick_regions := Some [Some (VStr "华北")];
                 pick_products := None |} four_orders view
              ltac:(vm_compute; reflexivity)) as (Hc & Hs & _).
  split; [exact Hc | exact Hs].
Defined.

(** X7.  On a frame that has both columns, two selection steps give the
    same view in either order, and a selection step applied to its own
    result changes nothing. *)
Theorem apply_selection_commutes c1 s1 c2 s2 df :
  has_column c1 df = true ->
  has_column c2 df = true ->
  (let* v := apply_selection c1 s1 df in apply_selection c2 s2 v)
  = (let* v := apply_selection c2 s2 df in apply_selection c1 s1 v)
  /\ (let* v := apply_selection c1 s1 df in apply_selection c1 s1 v)
     = apply_selection c1 s1 df.
Proof.
  intros H1 H2.
  rewrite (apply_selection_has c1 s1 df H1), (apply_selection_has c2 s2 df H2).
  cbn [rbind].
  rewrite !apply_selection_has by done. simpl.
  split; do 2 f_equal.
  - rewrite !list_filter_filter. apply list_filter_iff. intros r. tauto.
  - rewrite list_filter_filter. apply list_filter_iff. intros r. tauto.
Qed.

Lemma apply_selection_commutes_witness :
  (let* v := apply_selection "year" (Some [Some (VNum 2024)]) four_orders in
   apply_selection "region" (Some [Some (VStr "华北")]) v)
  = (let* v := apply_selection "region" (Some [Some (VStr "华北")])
                 four_orders in
     apply_selection "year" (Some [Some (VNum 2024)]) v).
Proof.
  apply (apply_selection_commutes "year" (Some [Some (VNum 2024)])
           "region" (Some [Some (VStr "华北")]) four_orders);
    vm_compute; reflexivity.
Defined.

(** X8.  With the sidebar untouched and at least one dated row, the view
    holds exactly the rows that have a year and pass the default product
    selection: a row whose date did not parse is not shown, although no
    year was deselected. *)
Theorem default_view_drops_undated df view :
  sidebar_filters untouched df = OK view ->
  has_column "year" df = true ->
  (exists r : Row, r ∈ rows df /\ is_Some (r !! "year")) ->
  exists sp,
    select_products untouched df = OK sp
    /\ rows view
       = filter (fun r : Row =>
                   is_Some (r !! "year") /\ passes "product_name" sp r)
                (rows df).
Proof.
  intros H Hc (r0 & Hr0 & Hy0).
  destruct (sidebar_filters_rows _ _ _ H)
    as (sy & sr & sp & Hy & Hr & Hp & _ & Hrows).
  exists sp. split; [done|]. rewrite Hrows.
  unfold select_years in Hy. rewrite Hc in Hy. inv_bind Hy.
  injection Hy as <-. rename a into years, Ha into Hyears.
  unfold select_regions in Hr. inv_bind Hr. injection Hr as <-.
  rename a into regions, Ha into Hregions. simpl.
  destruct (year_options_spec _ _ Hyears) as (_ & _ & Hys).
  destruct (region_options_spec _ _ Hregions) as (_ & Hrs).
  assert (Hne : truthy (Some years) = true).
  { destruct years as [|y years]; [|done].
    assert (Hin : r0 !! "year" ∈ []).
    { apply Hys. split; [done|]. unfold column.
      apply list_elem_of_fmap. by exists r0. }
    by apply elem_of_nil in Hin. }
  apply filter_ext_elem. intros r Hr. unfold passes at 1 2. rewrite Hne.
  simpl. split.
  - intros ([?|Hin] & _ & Hprod); [done|]. split; [|done]. by apply Hys in Hin as [? _].
  - intros [Hsome Hprod]. split; [|split; [|done]].
    + right. apply Hys. split; [done|]. unfold column.
      apply list_elem_of_fmap. by exists r.
    + right. apply Hrs. unfold column. apply list_elem_of_fmap. by exists r.
Qed.

Lemma default_view_drops_undated_witness :
  let df := frame_of (load_data day_parse (OK undated_orders)) in
  exists sp,
    select_products untouched df = OK sp
    /\ rows (result_frame (sidebar_filters untouched df))
       = filter (fun r : Row =>
                   is_Some (r !! "year") /\ passes "product_name" sp r)
                (rows df).
Proof.
  intros df.
  apply (default_view_drops_undated df
           (result_frame (sidebar_filters untouched df)));
    [vm_compute; reflexivity | vm_compute; reflexivity|].
  apply (proj1 (Exists_exists (fun r : Row => is_Some (r !! "year")) _)).
  decide_by_computation.
Defined.

(** ** The order of [sorted] on values of one kind *)

Lemma string_ltb_Lt s t : String.ltb s t = true <-> String.compare s t = Lt.
Proof. unfold String.ltb. destruct (String.compare s t); split; done. Qed.

Lemma string_le_antisym s t :
  String.ltb s t = false -> String.ltb t s = false -> s = t.
Proof.
  intros H1 H2. apply String.compare_eq_iff.
  destruct (String.compare s t) eqn:Hc; [done| |].
  - apply string_ltb_Lt in Hc. congruence.
  - assert (Ht : String.compare t s = Lt)
      by (rewrite String.compare_antisym, Hc; done).
    apply string_ltb_Lt in Ht. congruence.
Qed.

Lemma string_le_trans s t u :
  String.ltb t s = false -> String.ltb u t = false -> String.ltb u s = false.
Proof.
  intros H1 H2. destruct (String.ltb u s) eqn:Hus; [|done].
  apply string_ltb_Lt, OrderedTypeEx.String_as_OT.cmp_lt in Hus.
  destruct (String.compare s t) eqn:Hst.
  - apply String.compare_eq_iff in Hst. subst t.
    apply OrderedTypeEx.String_as_OT.cmp_lt, string_ltb_Lt in Hus. congruence.
  - apply OrderedTypeEx.String_as_OT.cmp_lt in Hst.
    pose proof (OrderedTypeEx.String_as_OT.lt_trans _ _ _ Hus Hst) as Hut.
    apply OrderedTypeEx.String_as_OT.cmp_lt, string_ltb_Lt in Hut. congruence.
  - assert (Hts : String.compare t s = Lt)
      by (rewrite String.compare_antisym, Hst; done).
    apply string_ltb_Lt in Hts. congruence.
Qed.

Lemma ts_le_antisym a b : ts_ltb a b = false -> ts_ltb b a = false -> a = b.
Proof.
  destruct a as [y1 m1 d1], b as [y2 m2 d2]. unfold ts_ltb. simpl.
  intros H1 H2.
  assert (y1 = y2 /\ m1 = m2 /\ d1 = d2) as (-> & -> & ->); [|done].
  destruct (Z.ltb_spec y1 y2), (Z.eqb_spec y1 y2), (Z.ltb_spec y2 y1),
    (Z.eqb_spec y2 y1), (Z.ltb_spec m1 m2), (Z.eqb_spec m1 m2),
    (Z.ltb_spec m2 m1), (Z.eqb_spec m2 m1), (Z.ltb_spec d1 d2),
    (Z.ltb_spec d2 d1); simpl in *; try discriminate; lia.
Qed.

Lemma ts_le_trans a b c :
  ts_ltb b a = false -> ts_ltb c b = false -> ts_ltb c a = false.
Proof.
  destruct a as [y1 m1 d1], b as [y2 m2 d2], c as [y3 m3 d3].
  unfold ts_ltb. simpl. intros H1 H2.
  destruct (Z.ltb_spec y2 y1), (Z.eqb_spec y2 y1), (Z.ltb_spec m2 m1),
    (Z.eqb_spec m2 m1), (Z.ltb_spec d2 d1); simpl in *; try discriminate;
  destruct (Z.ltb_spec y3 y2), (Z.eqb_spec y3 y2), (Z.ltb_spec m3 m2),
    (Z.eqb_spec m3 m2), (Z.ltb_spec d3 d2); simpl in *; try discriminate;
  destruct (Z.ltb_spec y3 y1), (Z.eqb_spec y3 y1), (Z.ltb_spec m3 m1),
    (Z.eqb_spec m3 m1), (Z.ltb_spec d3 d1); simpl; try done; lia.
Qed.

Lemma py_lt_asym a b : py_lt a b = true -> py_lt b a = false.
Proof.
  destruct a as [[s|x|t]|], b as [[s'|x'|t']|]; simpl; try done.
  - intros H. destruct (String.ltb s' s) eqn:H'; [|done].
    apply string_ltb_Lt in H, H'. rewrite String.compare_antisym, H in H'.
    done.
  - intros H. apply Z.ltb_lt in H. apply Z.ltb_ge. lia.
  - intros H. destruct (ts_ltb t' t) eqn:H'; [|done].
    destruct t as [y1 m1 d1], t' as [y2 m2 d2]. unfold ts_ltb in *.
    simpl in *.
    destruct (Z.ltb_spec y1 y2), (Z.eqb_spec y1 y2), (Z.ltb_spec y2 y1),
      (Z.eqb_spec y2 y1), (Z.ltb_spec m1 m2), (Z.eqb_spec m1 m2),
      (Z.ltb_spec m2 m1), (Z.eqb_spec m2 m1), (Z.ltb_spec d1 d2),
      (Z.ltb_spec d2 d1); simpl in *; try discriminate; lia.
Qed.

#[global] Instance py_le_total : Total py_le.
Proof.
  intros a b. unfold py_le. destruct (py_lt b a) eqn:H; [|by left].
  right. by apply py_lt_asym.
Qed.

Lemma py_le_antisym a b :
  is_Some a -> is_Some b -> kind_of a = kind_of b ->
  py_le a b -> py_le b a -> a = b.
Proof.
  unfold py_le.
  destruct a as [[s|x|t]|], b as [[s'|x'|t']|]; simpl;
    intros [a' Ha] [b' Hb] Hk Hle1 Hle2; try done.
  - f_equal. f_equal. by apply string_le_antisym.
  - apply Z.ltb_ge in Hle1, Hle2. do 2 f_equal. lia.
  - do 2 f_equal. by apply ts_le_antisym.
Qed.

Lemma py_le_trans a b c :
  is_Some a -> is_Some b -> is_Some c ->
  kind_of a = kind_of b -> kind_of b = kind_of c ->
  py_le a b -> py_le b c -> py_le a c.
Proof.
  unfold py_le.
  destruct a as [[s|x|t]|], b as [[s'|x'|t']|], c as [[s''|x''|t'']|]; simpl;
    intros [a' Ha] [b' Hb] [c' Hc] Hk1 Hk2 Hle1 Hle2; try done.
  - by eapply string_le_trans.
  - apply Z.ltb_ge in Hle1, Hle2. apply Z.ltb_ge. lia.
  - by eapply ts_le_trans.
Qed.

Lemma Sorted_StronglySorted_on {A} (R : relation A) (l : list A) :
  (forall x y z, x ∈ l -> y ∈ l -> z ∈ l -> R x y -> R y z -> R x z) ->
  Sorted R l -> StronglySorted R l.
Proof.
  induction l as [|x l IH]; intros Htrans Hs; [constructor|].
  apply Sorted_inv in Hs as [Hs Hhd].
  assert (IHl : StronglySorted R l).
  { apply IH; [|done]. intros a b c Ha Hb Hc. apply Htrans; by right. }
  constructor; [done|].
  destruct Hhd as [|y l' Hxy]; [constructor|].
  apply StronglySorted_inv in IHl as [_ Hall].
  constructor; [done|].
  rewrite Forall_forall in Hall. apply Forall_forall. intros z Hz.
  apply (Htrans x y z); [| | |done|by apply Hall].
  - apply elem_of_cons. by left.
  - apply elem_of_cons. right. apply elem_of_cons. by left.
  - apply elem_of_cons. right. apply elem_of_cons. by right.
Qed.

Lemma same_kind_Permutation l l' : l ≡ₚ l' -> same_kind l = same_kind l'.
Proof.
  intros Hp.
  destruct (same_kind l) eqn:H1, (same_kind l') eqn:H2; try done.
  - rewrite <- H2. symmetry. eapply same_kind_sub; [exact H1|].
    intros x Hx. by rewrite Hp.
  - rewrite <- H1. eapply same_kind_sub; [exact H2|].
    intros x Hx. by rewrite <- Hp.
Qed.

(** On present values of one kind the sorted list depends on the values
    only, not on the order they came in. *)
Lemma sorted_Permutation_eq l l' :
  Forall is_Some l -> l ≡ₚ l' -> sorted l = sorted l'.
Proof.
  intros Hsome Hp. unfold sorted. rewrite <- (same_kind_Permutation _ _ Hp).
  destruct (same_kind l) eqn:Hk; [|done]. f_equal.
  assert (Hin : forall x, x ∈ merge_sort py_le l -> is_Some x /\ x ∈ l).
  { intros x Hx. rewrite merge_sort_Permutation in Hx.
    split; [|done]. by eapply Forall_forall in Hsome. }
  assert (Hin' : forall x, x ∈ merge_sort py_le l' -> is_Some x /\ x ∈ l).
  { intros x Hx. rewrite merge_sort_Permutation, <- Hp in Hx.
    split; [|done]. by eapply Forall_forall in Hsome. }
  pose proof (proj1 (same_kind_true l) Hk) as Hkind.
  apply (StronglySorted_unique_strong py_le).
  - intros x y Hx Hy. apply Hin in Hx as [? ?]. apply Hin' in Hy as [? ?].
    apply py_le_antisym; auto.
  - apply Sorted_StronglySorted_on; [|apply Sorted_merge_sort; apply _].
    intros x y z Hx Hy Hz.
    apply Hin in Hx as [? ?], Hy as [? ?], Hz as [? ?].
    apply py_le_trans; auto.
  - apply Sorted_StronglySorted_on; [|apply Sorted_merge_sort; apply _].
    intros x y z Hx Hy Hz.
    apply Hin' in Hx as [? ?], Hy as [? ?], Hz as [? ?].
    apply py_le_trans; auto.
  - by rewrite !merge_sort_Permutation.
Qed.

Lemma unique_Permutation {A} `{EqDecision A} (l l' : list A) :
  l ≡ₚ l' -> unique l ≡ₚ unique l'.
Proof.
  intros Hp. apply NoDup_Permutation; [apply NoDup_unique..|].
  intros x. by rewrite !elem_of_unique, Hp.
Qed.

Lemma group_keys_Permutation l l' :
  l ≡ₚ l' -> sorted (unique (dropna l)) = sorted (unique (dropna l')).
Proof.
  intros Hp. apply sorted_Permutation_eq.
  - apply Forall_forall. intros x Hx.
    apply elem_of_unique, elem_of_dropna in Hx. tauto.
  - apply unique_Permutation. unfold dropna. by rewrite Hp.
Qed.

(** ** Sums *)

Lemma series_sum_alt s :
  series_sum s
  = if forallb numeric s then OK (zsum (num0 <$> s)) else Raise TypeError.
Proof.
  induction s as [|v s IH]; [done|].
  simpl. rewrite IH.
  destruct v as [[x|n|t]|]; simpl; try done;
    by destruct (forallb numeric s).
Qed.

Lemma forallb_Permutation {A} (f : A -> bool) l l' :
  l ≡ₚ l' -> forallb f l = forallb f l'.
Proof.
  induction 1 as [|x l l' _ IH|x y l|l l' l'' _ IH1 _ IH2]; simpl.
  - done.
  - by rewrite IH.
  - by destruct (f x), (f y).
  - by rewrite IH1.
Qed.

Lemma zsum_Permutation l l' : l ≡ₚ l' -> zsum l = zsum l'.
Proof.
  unfold zsum.
  induction 1 as [|x l l' _ IH|x y l|l l' l'' _ IH1 _ IH2]; simpl; lia.
Qed.

Lemma zsum_app l l' : zsum (l ++ l') = zsum l + zsum l'.
Proof. unfold zsum. induction l as [|x l IH]; simpl; lia. Qed.

Lemma series_sum_Permutation s s' : s ≡ₚ s' -> series_sum s = series_sum s'.
Proof.
  intros Hp. rewrite !series_sum_alt, (forallb_Permutation _ _ _ Hp).
  destruct (forallb numeric s'); [|done]. f_equal.
  apply zsum_Permutation. by rewrite Hp.
Qed.

Lemma rmapM_ext {A B} (f g : A -> Result B) l :
  (forall x, x ∈ l -> f x = g x) -> rmapM f l = rmapM g l.
Proof.
  induction l as [|x l IH]; intros Hext; [done|].
  simpl. rewrite (Hext x) by (apply elem_of_cons; by left).
  destruct (g x); [|done]. simpl.
  rewrite IH; [done|]. intros y Hy. apply Hext. apply elem_of_cons. by right.
Qed.

Lemma column_Permutation c df df' :
  rows df' ≡ₚ rows df -> column c df' ≡ₚ column c df.
Proof. intros Hp. unfold column. by rewrite Hp. Qed.

Lemma group_sum_Permutation key value df df' g :
  rows df' ≡ₚ rows df ->
  group_sum key value df' g = group_sum key value df g.
Proof.
  intros Hp. unfold group_sum, group_rows.
  rewrite (series_sum_Permutation
             ((fun r : Row => r !! value)
                <$> filter (fun r : Row => r !! key = g) (rows df'))
             ((fun r : Row => r !! value)
                <$> filter (fun r : Row => r !! key = g) (rows df)));
    [done|].
  by rewrite Hp.
Qed.

(** X9.  A grouped sum does not depend on the order of the rows: two
    frames with the same columns and the same rows in any order give the
    same aggregate, or raise the same exception. *)
Theorem groupby_sum_row_order key value df df' :
  columns df' = columns df ->
  rows df' ≡ₚ rows df ->
  groupby_sum key value df' = groupby_sum key value df.
Proof.
  intros Hc Hp. unfold groupby_sum, get_col.
  rewrite !(has_column_sub _ df df' Hc).
  destruct (has_column key df); [|done]. cbn [rbind].
  destruct (has_column value df); [|done]. cbn [rbind].
  rewrite (group_keys_Permutation _ _ (column_Permutation key df df' Hp)).
  destruct (sorted (unique (dropna (column key df)))) as [groups|]; [|done].
  cbn [rbind]. apply rmapM_ext. intros g _.
  by apply group_sum_Permutation.
Qed.

Lemma groupby_sum_row_order_witness :
  groupby_sum "region" "_quantity"
    {| columns := columns four_orders; rows := reverse (rows four_orders) |}
  = groupby_sum "region" "_quantity" four_orders.
Proof.
  apply groupby_sum_row_order; [reflexivity|].
  simpl. apply reverse_Permutation.
Defined.

(** ** Grouped sums add up *)

Lemma series_sum_OK s total :
  series_sum s = OK total ->
  forallb numeric s = true /\ total = zsum (num0 <$> s).
Proof.
  rewrite series_sum_alt. destruct (forallb numeric s); [|done].
  intros [= <-]. done.
Qed.

Lemma zsum_split_group {K} `{EqDecision K} (kf : Row -> K) (value : string)
    (g : K) (gs : list K) (l : list Row) :
  g ∉ gs ->
  zsum (num0 <$> ((fun r : Row => r !! value)
                    <$> filter (fun r : Row => kf r ∈ g :: gs) l))
  = zsum (num0 <$> ((fun r : Row => r !! value)
                      <$> filter (fun r : Row => kf r = g) l))
    + zsum (num0 <$> ((fun r : Row => r !! value)
                        <$> filter (fun r : Row => kf r ∈ gs) l)).
Proof.
  intros Hg. induction l as [|r l IH]; [done|].
  rewrite !filter_cons.
  destruct (decide (kf r = g)) as [Heq|Hne].
  - rewrite decide_True by (rewrite Heq; apply elem_of_cons; by left).
    rewrite decide_False by (by rewrite Heq).
    rewrite !fmap_cons. unfold zsum in *. cbn [foldr]. lia.
  - destruct (decide (kf r ∈ gs)) as [Hin|Hnin].
    + rewrite decide_True by (apply elem_of_cons; by right).
      rewrite !fmap_cons. unfold zsum in *. cbn [foldr]. lia.
    + rewrite decide_False; [done|].
      intros [?|?]%elem_of_cons; done.
Qed.

(** Summing group by group, over distinct keys, is summing over the rows
    whose key is one of them. *)
Lemma zsum_groups {K} `{EqDecision K} (kf : Row -> K) (value : string)
    (gs : list K) (l : list Row) :
  NoDup gs ->
  zsum ((fun g : K =>
           zsum (num0 <$> ((fun r : Row => r !! value)
                             <$> filter (fun r : Row => kf r = g) l)))
          <$> gs)
  = zsum (num0 <$> ((fun r : Row => r !! value)
                      <$> filter (fun r : Row => kf r ∈ gs) l)).
Proof.
  induction 1 as [|g gs Hg _ IH].
  - rewrite (filter_none (fun r : Row => kf r ∈ [])); [done|].
    intros r _ Hr. by apply elem_of_nil in Hr.
  - rewrite fmap_cons, (zsum_split_group kf value g gs l Hg), <- IH. done.
Qed.

Lemma group_sums_Forall2 key value df groups agg :
  Forall2 (fun g y => group_sum key value df g = OK y) groups agg ->
  snd <$> agg
  = (fun g : Val =>
       zsum (num0 <$> ((fun r : Row => r !! value)
                         <$> filter (fun r : Row => r !! key = g) (rows df))))
      <$> groups
  /\ Forall (fun g : Val =>
               forallb numeric ((fun r : Row => r !! value)
                                  <$> filter (fun r : Row => r !! key = g)
                                        (rows df)) = true) groups.
Proof.
  induction 1 as [|g y groups agg Hg _ [IH1 IH2]]; [done|].
  unfold group_sum, group_rows in Hg. inv_bind Hg.
  injection Hg as <-. apply series_sum_OK in Ha as [Hnum ->].
  split; [by rewrite !fmap_cons, IH1 | by constructor].
Qed.

Lemma group_keys_spec key df groups :
  sorted (unique (dropna (column key df))) = OK groups ->
  NoDup groups
  /\ forall r, r ∈ rows df -> r !! key ∈ groups <-> is_Some (r !! key).
Proof.
  intros Hs. pose proof (sorted_Permutation _ _ Hs) as Hp. split.
  - rewrite Hp. apply NoDup_unique.
  - intros r Hr. rewrite Hp, elem_of_unique, elem_of_dropna.
    pose proof (Forall_column_elem key df) as Hall.
    rewrite Forall_forall in Hall. specialize (Hall r Hr). tauto.
Qed.

Lemma groupby_sum_total key value df agg :
  groupby_sum key value df = OK agg ->
  series_sum ((fun r : Row => r !! value)
                <$> filter (fun r : Row => is_Some (r !! key)) (rows df))
  = OK (zsum (snd <$> agg)).
Proof.
  intros H. unfold groupby_sum in H.
  inv_bind H. inv_bind H. inv_bind H.
  apply get_col_OK in Ha as [_ ->].
  rename a1 into groups.
  destruct (group_keys_spec key df groups Ha1) as [Hnd Hkeys].
  apply rmapM_Forall2, group_sums_Forall2 in H as [-> Hnum].
  rewrite (zsum_groups (fun r : Row => r !! key) value groups (rows df)
             Hnd).
  rewrite (filter_ext_elem (fun r : Row => is_Some (r !! key))
             (fun r : Row => r !! key ∈ groups) (rows df))
    by (intros r Hr; symmetry; by apply Hkeys).
  rewrite series_sum_alt.
  replace (forallb numeric ((fun r : Row => r !! value)
             <$> filter (fun r : Row => r !! key ∈ groups) (rows df)))
    with true; [done|].
  symmetry. apply forallb_forall. intros v Hv.
  apply list_elem_of_In, list_elem_of_fmap in Hv as (r & -> & Hr).
  apply list_elem_of_filter in Hr as [Hg Hr].
  rewrite Forall_forall in Hnum. specialize (Hnum _ Hg).
  rewrite forallb_forall in Hnum. apply Hnum.
  apply list_elem_of_In, list_elem_of_fmap. exists r. split; [done|].
  apply list_elem_of_filter. done.
Qed.

(** X10.  Grouping loses nothing and counts nothing twice: when the
    grouped sum succeeds, its totals add up to the plain sum of the value
    column over the rows that have a key.  Rows whose key is missing are
    the only ones left out. *)
Theorem groupby_sum_conserves key value df agg :
  groupby_sum key value df = OK agg ->
  series_sum ((fun r : Row => r !! value)
                <$> filter (fun r : Row => is_Some (r !! key)) (rows df))
  = OK (zsum (snd <$> agg)).
Proof.
  apply groupby_sum_total.
Qed.

Lemma groupby_sum_conserves_witness :
  series_sum ((fun r : Row => r !! "_quantity")
                <$> filter (fun r : Row => is_Some (r !! "region"))
                      (rows four_orders))
  = OK (zsum (snd <$> [(Some (VStr "华北"), 4); (Some (VStr "华南"), 3)])).
Proof.
  apply (groupby_sum_conserves "region" "_quantity" four_orders).
  vm_compute. reflexivity.
Defined.

(** ** The regional chart on a view with rows *)

Lemma rmapM_pure {A B} (f : A -> B) (l : list A) :
  rmapM (fun x => OK (f x)) l = OK (f <$> l).
Proof. induction l as [|x l IH]; [done|]. simpl. by rewrite IH. Qed.

Lemma sort_values_desc_sorted {A} (l : list (A * Z)) :
  StronglySorted value_desc (sort_values_desc l).
Proof. apply (StronglySorted_merge_sort value_desc). Qed.

Lemma foldl_max_first x l :
  Forall (fun y => y <= x) l -> foldl Z.max x l = x.
Proof.
  induction 1 as [|y l Hy _ IH]; [done|].
  simpl. by rewrite Z.max_l.
Qed.

(** The first row of a ranking holds the largest value. *)
Lemma ranking_head {A} (l : list (A * Z)) top rest :
  StronglySorted value_desc l -> l = top :: rest ->
  (forall g, g ∈ l -> snd g <= snd top)
  /\ py_max (snd <$> l) = OK (snd top).
Proof.
  intros Hs ->. apply StronglySorted_inv in Hs as [_ Hall]. split.
  - intros g [->|Hg]%elem_of_cons; [lia|].
    rewrite Forall_forall in Hall. by apply Hall.
  - simpl. f_equal. apply foldl_max_first.
    apply Forall_fmap. eapply Forall_impl; [exact Hall|]. done.
Qed.

Lemma lookup_concat_uniform {A} (k : nat) (ls : list (list A)) (i j : nat) :
  Forall (fun b => length b = k) ls -> (j < k)%nat ->
  concat ls !! (i * k + j)%nat = ls !! i ≫= (fun b => b !! j).
Proof.
  intros Hall Hj. revert i. induction Hall as [|b ls Hb _ IH]; intros i.
  - done.
  - cbn [concat]. destruct i as [|i].
    + simpl. apply lookup_app_l. lia.
    + rewrite lookup_app_r by lia.
      replace (S i * k + j - length b)%nat with (i * k + j)%nat by lia.
      apply IH.
Qed.

Lemma length_concat_uniform {A} (k : nat) (ls : list (list A)) :
  Forall (fun b => length b = k) ls ->
  length (concat ls) = (k * length ls)%nat.
Proof.
  induction 1 as [|b ls Hb _ IH]; [simpl; lia|].
  cbn [concat]. rewrite length_app, IH. cbn [length]. lia.
Qed.

Lemma length_gradient_bar i qty top :
  length (gradient_bar i qty top) = 101%nat.
Proof.
  unfold gradient_bar, layer_ratios.
  rewrite length_app, length_fmap, length_linspace. done.
Qed.

Lemma gradient_bar_label i qty top :
  gradient_bar i qty top !! 100%nat
  = Some (Text (inject_Z (Z.of_nat i))
               (inject_Z qty + inject_Z top * (2 # 100))%Q qty).
Proof.
  unfold gradient_bar, layer_ratios.
  rewrite lookup_app_r by (rewrite length_fmap, length_linspace; done).
  by rewrite length_fmap, length_linspace.
Qed.

(** X11.  On a view with at least one region the regional chart is drawn:
    a bar of 100 layers and one label for each region, in descending order
    of the totals, every label lifted by 2% of the largest total, and a
    headline that names the region with the largest total together with
    its share of the sum of all totals. *)
Theorem regional_chart_drawn df stats :
  region_stats df = OK stats ->
  stats <> [] ->
  exists fig top,
    plot_regional_gradient_bars df = OK (Drawn fig)
    /\ head stats = Some top
    /\ (forall g, g ∈ stats -> snd g <= snd top)
    /\ StronglySorted value_desc stats
    /\ length fig = (101 * length stats + 1)%nat
    /\ (forall i g total,
          stats !! i = Some (g, total) ->
          fig !! (i * 101 + 100)%nat
          = Some (Text (inject_Z (Z.of_nat i))
                       (inject_Z total + inject_Z (snd top) * (2 # 100))%Q
                       total))
    /\ last fig
       = Some (Headline (fst top) (share (snd top) (zsum (snd <$> stats)))).
Proof.
  intros Hstats Hne.
  assert (Hs : StronglySorted value_desc stats).
  { unfold region_stats in Hstats. inv_bind Hstats. injection Hstats as <-.
    apply sort_values_desc_sorted. }
  destruct stats as [|top rest] eqn:E; [done|]. rewrite <- E in *.
  destruct (ranking_head stats top rest Hs E) as [Hmax Hpy].
  set (bars := imap (fun i qty => gradient_bar i qty (snd top))
                    (snd <$> stats)).
  assert (Hbars :
    rmapM (fun '(i, qty) =>
             let* top := py_max (snd <$> stats) in OK (gradient_bar i qty top))
          (imap pair (snd <$> stats)) = OK bars).
  { rewrite (rmapM_ext _ (fun p : nat * Z =>
                            OK (gradient_bar (fst p) (snd p) (snd top)))).
    - rewrite rmapM_pure. f_equal. unfold bars.
      rewrite fmap_imap. done.
    - intros [i qty] _. by rewrite Hpy. }
  assert (Hlen : Forall (fun b : list Artist => length b = 101%nat) bars).
  { apply Forall_forall. intros b Hb. unfold bars in Hb.
    apply elem_of_lookup_imap in Hb as (i & qty & -> & _).
    apply length_gradient_bar. }
  exists (concat bars ++ [Headline (fst top)
                            (share (snd top) (zsum (snd <$> stats)))])%list,
    top.
  split.
  { unfold plot_regional_gradient_bars. rewrite Hstats. cbn [rbind].
    cbv zeta. rewrite Hbars, Hpy. cbn [rbind]. by rewrite E. }
  split; [by rewrite E|].
  split; [done|]. split; [done|].
  split.
  { rewrite length_app, (length_concat_uniform 101 bars Hlen).
    unfold bars. rewrite length_imap, length_fmap. cbn [length]. lia. }
  split.
  { intros i g total Hi.
    assert (Hb : bars !! i = Some (gradient_bar i total (snd top))).
    { unfold bars. rewrite list_lookup_imap, list_lookup_fmap, Hi. done. }
    rewrite lookup_app_l.
    - rewrite (lookup_concat_uniform 101 bars i 100 Hlen) by lia.
      rewrite Hb. cbn [mbind option_bind]. apply gradient_bar_label.
    - rewrite (length_concat_uniform 101 bars Hlen).
      apply lookup_lt_Some in Hb. lia. }
  by rewrite last_snoc.
Qed.

Lemma regional_chart_drawn_witness :
  exists fig top,
    plot_regional_gradient_bars four_orders = OK (Drawn fig)
    /\ top = (Some (VStr "华北"), 4)
    /\ length fig = 203%nat.
Proof.
  destruct (regional_chart_drawn four_orders
              [(Some (VStr "华北"), 4); (Some (VStr "华南"), 3)]
              ltac:(vm_compute; reflexivity) ltac:(done))
    as (fig & top & H1 & H2 & _ & _ & H5 & _).
  exists fig, top. injection H2 as <-. done.
Defined.

Lemma lookup_linspace a b n e (k : nat) :
  (k < n)%nat ->
  linspace a b n e !! k
  = Some (a + inject_Z (Z.of_nat k)
              * ((b - a) / inject_Z (Z.of_nat (if e then (n - 1)%nat else n))))%Q.
Proof.
  intros Hk. unfold linspace. cbv zeta.
  rewrite list_lookup_fmap, lookup_seq_lt by done. done.
Qed.

(** X12.  The 100 layers of a gradient bar tile the bar: layer [k] starts
    at [k] layer heights, 100 layer heights make up the total of the
    region, every layer is centred on the tick of its region and has the
    width of the bar, and its shade stays between 0.4 and 0.95, inside the
    range of the colour map. *)
Theorem gradient_layers_tile (i : nat) (qty top : Z) (k : nat) :
  (k < 100)%nat ->
  exists x y h shade,
    gradient_bar i qty top !! k = Some (Rectangle x y bar_width h shade)
    /\ (y == inject_Z (Z.of_nat k) * h)%Q
    /\ (inject_Z 100 * h == inject_Z qty)%Q
    /\ (x + bar_width / 2 == inject_Z (Z.of_nat i))%Q
    /\ ((4 # 10) <= shade)%Q /\ (shade < (95 # 100))%Q.
Proof.
  intros Hk. unfold gradient_bar, layer_ratios, gradient_steps. cbv zeta.
  rewrite lookup_app_l by (rewrite length_fmap, length_linspace; done).
  rewrite list_lookup_fmap, (lookup_linspace 0 1 100 false k Hk).
  cbn [fmap option_fmap option_map].
  eexists _, _, _, _. split; [reflexivity|].
  split; [field|]. split; [field|]. split; [unfold bar_width; field|].
  split.
  - unfold Qle. simpl. lia.
  - unfold Qlt. simpl. lia.
Qed.

Lemma gradient_layers_tile_witness :
  exists x y h shade,
    gradient_bar 0 250 400 !! 99%nat = Some (Rectangle x y bar_width h shade)
    /\ (y == inject_Z (Z.of_nat 99) * h)%Q
    /\ (inject_Z 100 * h == inject_Z 250)%Q
    /\ (x + bar_width / 2 == inject_Z (Z.of_nat 0))%Q
    /\ ((4 # 10) <= shade)%Q /\ (shade < (95 # 100))%Q.
Proof. apply (gradient_layers_tile 0 250 400 99). lia. Defined.

(** ** The top-N chart *)

Lemma ranking_cut {A} (n : nat) (agg : list (A * Z)) g h :
  g ∈ agg -> g ∉ take n (sort_values_desc agg) ->
  h ∈ take n (sort_values_desc agg) -> snd g <= snd h.
Proof.
  intros Hg Hout Hh.
  pose proof (sort_values_desc_sorted agg) as Hs.
  rewrite <- (take_drop n (sort_values_desc agg)) in Hs.
  apply (StronglySorted_app_1_elem_of _ _ _ h g Hs); [done|].
  apply elem_of_sort_values_desc in Hg.
  rewrite <- (take_drop n (sort_values_desc agg)) in Hg.
  apply elem_of_app in Hg as [?|?]; done.
Qed.

Lemma value_labels_total (values : list Z) :
  exists labels,
    rmapM (fun '(i, val) =>
             let* m := py_max values in
             OK (Text (inject_Z val + inject_Z m * (1 # 100))%Q
                      (inject_Z (Z.of_nat i)) val))
          (imap pair values) = OK labels
    /\ length labels = length values.
Proof.
  destruct values as [|v vs] eqn:E; [by exists []|]. rewrite <- E.
  destruct (py_max_OK values ltac:(by rewrite E)) as [m Hm].
  eexists. split.
  - rewrite (rmapM_ext _ (fun p : nat * Z =>
               OK (Text (inject_Z (snd p) + inject_Z m * (1 # 100))%Q
                        (inject_Z (Z.of_nat (fst p))) (snd p)))).
    + apply rmapM_pure.
    + intros [j val] _. by rewrite Hm.
  - by rewrite length_fmap, length_imap.
Qed.

(** X13.  The top-N chart keeps the [n] largest group totals, or all of
    them when there are fewer: the kept totals are in descending order, no
    group left out has a larger total than a group kept, and the figure
    has one bar and one label for each kept group, bar [i] for the group
    of rank [i].  With an aggregate at hand the chart never raises. *)
Theorem top_products_ranking n df agg :
  groupby_sum (product_column df) (quantity_first df) df = OK agg ->
  exists top fig,
    top_products n df = OK top
    /\ length top = Nat.min n (length agg)
    /\ StronglySorted value_desc top
    /\ (forall g h, g ∈ agg -> g ∉ top -> h ∈ top -> snd g <= snd h)
    /\ plot_top_products df n = OK (Drawn fig)
    /\ length fig = (2 * length top)%nat
    /\ (forall i g total,
          top !! i = Some (g, total) ->
          exists shade, fig !! i = Some (BarH g total shade)).
Proof.
  intros Hagg.
  assert (Hcol : has_column (product_column df) df = true).
  { unfold groupby_sum in Hagg. inv_bind Hagg.
    by apply get_col_OK in Ha as [? _]. }
  set (top := take n (sort_values_desc agg)).
  assert (Htop : top_products n df = OK top).
  { unfold top_products. by rewrite Hagg. }
  destruct (value_labels_total (snd <$> top)) as (labels & Hlabels & Hlen).
  set (bars := zip_with (fun '(p, v) c => BarH p v c) top
                 (linspace (3 # 10) (9 # 10) (length top) true)).
  assert (Hbars : length bars = length top).
  { unfold bars. rewrite length_zip_with, length_linspace. lia. }
  exists top, (bars ++ labels)%list.
  split; [done|]. split.
  { unfold top, sort_values_desc.
    rewrite length_take, (Permutation_length (merge_sort_Permutation _ agg)).
    lia. }
  split.
  { pose proof (sort_values_desc_sorted agg) as Hs.
    rewrite <- (take_drop n (sort_values_desc agg)) in Hs.
    by apply StronglySorted_app_1_l in Hs. }
  split; [intros g h; apply ranking_cut|].
  split.
  { unfold plot_top_products. rewrite Hcol, Htop. cbn [negb rbind].
    cbv zeta. rewrite Hlabels. done. }
  split.
  { rewrite length_app, Hbars, Hlen, length_fmap. lia. }
  intros i g total Hi.
  assert (Hlt : (i < length top)%nat) by (by apply lookup_lt_Some in Hi).
  destruct (lookup_lt_is_Some_2 (linspace (3 # 10) (9 # 10) (length top) true)
              i ltac:(by rewrite length_linspace)) as [c Hc].
  exists c. rewrite lookup_app_l by lia.
  unfold bars. rewrite lookup_zip_with, Hi. cbn [mbind option_bind].
  rewrite Hc. done.
Qed.

Lemma top_products_ranking_witness :
  exists top fig,
    top_products 1 four_orders = OK top
    /\ length top = 1%nat
    /\ plot_top_products four_orders 1 = OK (Drawn fig)
    /\ length fig = 2%nat.
Proof.
  destruct (top_products_ranking 1 four_orders
              [(Some (VStr "羽绒服"), 1); (Some (VStr "运动裤"), 1);
               (Some (VStr "连衣裙"), 5)]
              ltac:(vm_compute; reflexivity))
    as (top & fig & H1 & H2 & _ & _ & H5 & H6 & _).
  exists top, fig. split; [done|].
  assert (Hl : length top = 1%nat) by (rewrite H2; vm_compute; reflexivity).
  split; [done|]. split; [done|]. by rewrite H6, Hl.
Defined.

(** ** The buckets of the monthly trend *)

#[global] Instance period_le_total : Total period_le.
Proof. intros [y1 m1] [y2 m2]. unfold period_le. simpl. lia. Qed.

#[global] Instance period_le_trans : Transitive period_le.
Proof. intros [y1 m1] [y2 m2] [y3 m3]. unfold period_le. simpl. lia. Qed.

#[global] Instance period_le_antisym : AntiSymm (=) period_le.
Proof.
  intros [y1 m1] [y2 m2]. unfold period_le. simpl. intros H1 H2.
  f_equal; lia.
Qed.

Lemma to_period_month_of (r : Row) p :
  to_period (r !! "_primary_date") = OK p -> month_of r = Some p.
Proof.
  unfold to_period, month_of.
  destruct (r !! "_primary_date") as [[x|n|t]|]; try done.
  by intros [= <-].
Qed.

Lemma month_sum_key value l m p : month_sum value l m = OK p -> fst p = m.
Proof. unfold month_sum. intros H. inv_bind H. by injection H as <-. Qed.

(** What a successful run of [monthly_buckets] went through. *)
Lemma monthly_buckets_inv df monthly :
  monthly_buckets df = OK monthly ->
  exists year_month,
    Forall2 (fun (r : Row) p => month_of r = Some p)
      (filter (fun r : Row => is_Some (r !! "_primary_date")) (rows df))
      year_month
    /\ fst <$> monthly = merge_sort period_le (unique year_month)
    /\ Forall2 (fun m p =>
                  month_sum (amount_first df)
                    (filter (fun r : Row => is_Some (r !! "_primary_date"))
                       (rows df)) m = OK p)
         (merge_sort period_le (unique year_month)) monthly.
Proof.
  unfold monthly_buckets. cbv zeta. intros H.
  inv_bind H. inv_bind H. rename a into year_month.
  exists year_month. split; [|split].
  - apply rmapM_Forall2 in Ha.
    eapply Forall2_impl; [exact Ha|]. intros r p. apply to_period_month_of.
  - eapply rmapM_keys; [|exact H]. intros m p. apply month_sum_key.
  - by apply rmapM_Forall2.
Qed.

Lemma month_of_dated (r : Row) m :
  month_of r = Some m -> is_Some (r !! "_primary_date").
Proof. unfold month_of. destruct (r !! "_primary_date"); [eauto|done]. Qed.

Lemma monthly_keys_spec df monthly m :
  monthly_buckets df = OK monthly ->
  m ∈ fst <$> monthly <-> exists r : Row, r ∈ rows df /\ month_of r = Some m.
Proof.
  intros H. apply monthly_buckets_inv in H as (ym & Hym & -> & _).
  rewrite merge_sort_Permutation, elem_of_unique. split.
  - intros Hm. apply list_elem_of_lookup in Hm as [i Hi].
    destruct (Forall2_lookup_r _ _ _ _ _ Hym Hi) as (r & Hr & Hmr).
    exists r. split; [|done].
    apply list_elem_of_lookup_2 in Hr.
    by apply list_elem_of_filter in Hr as [_ ?].
  - intros (r & Hr & Hmr).
    assert (Hin : r ∈ filter (fun r : Row => is_Some (r !! "_primary_date"))
                        (rows df)).
    { apply list_elem_of_filter. split; [|done]. by eapply month_of_dated. }
    apply list_elem_of_lookup in Hin as [i Hi].
    destruct (Forall2_lookup_l _ _ _ _ _ Hym Hi) as (p & Hp & Hmp).
    rewrite Hmr in Hmp. injection Hmp as <-.
    by apply list_elem_of_lookup_2 in Hp.
Qed.

(** X14.  The buckets of the monthly trend are the calendar months in
    which the view has a dated row, each month once, in calendar order;
    and a date cell that is present holds a timestamp, or the chart would
    have raised. *)
Theorem monthly_buckets_calendar df monthly :
  monthly_buckets df = OK monthly ->
  StronglySorted (fun a b : Period => period_le a b /\ a <> b)
    (fst <$> monthly)
  /\ (forall m,
        m ∈ fst <$> monthly
        <-> exists r : Row, r ∈ rows df /\ month_of r = Some m)
  /\ (forall r : Row,
        r ∈ rows df -> is_Some (r !! "_primary_date") ->
        exists m, month_of r = Some m /\ m ∈ fst <$> monthly).
Proof.
  intros H. split; [|split].
  - destruct (monthly_buckets_inv df monthly H) as (ym & _ & -> & _).
    assert (Hnd : NoDup (merge_sort period_le (unique ym))).
    { rewrite merge_sort_Permutation. apply NoDup_unique. }
    pose proof (StronglySorted_merge_sort period_le (unique ym)) as Hs.
    revert Hnd Hs. generalize (merge_sort period_le (unique ym)).
    induction l as [|a l IH]; intros Hnd Hs; [constructor|].
    apply NoDup_cons in Hnd as [Ha Hnd].
    apply StronglySorted_inv in Hs as [Hs Hall].
    constructor; [by apply IH|].
    apply Forall_forall. intros b Hb. split.
    + rewrite Forall_forall in Hall. by apply Hall.
    + intros ->. done.
  - intros m. by apply monthly_keys_spec.
  - intros r Hr Hd.
    destruct (monthly_buckets_inv df monthly H) as (ym & Hym & _ & _).
    assert (Hin : r ∈ filter (fun r : Row => is_Some (r !! "_primary_date"))
                        (rows df)).
    { by apply list_elem_of_filter. }
    apply list_elem_of_lookup in Hin as [i Hi].
    destruct (Forall2_lookup_l _ _ _ _ _ Hym Hi) as (p & Hp & Hmp).
    exists p. split; [done|].
    apply (monthly_keys_spec df monthly p H). eauto.
Qed.

Lemma monthly_buckets_calendar_witness :
  StronglySorted (fun a b : Period => period_le a b /\ a <> b)
    (fst <$> [((2024, 1), 100); ((2024, 2), 200); ((2024, 3), 300)]).
Proof.
  apply (monthly_buckets_calendar (monthly_orders 3)).
  vm_compute. reflexivity.
Defined.

(** ** The time buckets add up *)

(** Totals kept per key add up to the plain sum over the rows that have a
    key, when the keys are distinct and every key of a row has its entry. *)
Lemma grouped_sums_conserve {K} `{EqDecision K} (kf : Row -> option K)
    (value : string) (l : list Row) (agg : list (K * Z)) :
  NoDup (fst <$> agg) ->
  Forall (fun e : K * Z =>
            series_sum ((fun r : Row => r !! value)
                          <$> filter (fun r : Row => kf r = Some (fst e)) l)
            = OK (snd e)) agg ->
  (forall (r : Row) k, r ∈ l -> kf r = Some k -> k ∈ fst <$> agg) ->
  series_sum ((fun r : Row => r !! value)
                <$> filter (fun r : Row => is_Some (kf r)) l)
  = OK (zsum (snd <$> agg)).
Proof.
  intros Hnd Hall Hcover.
  set (gs := Some <$> (fst <$> agg)).
  assert (Hgs : NoDup gs) by (apply (NoDup_fmap_2 Some); done).
  assert (Hsnd :
    snd <$> agg
    = (fun g : option K =>
         zsum (num0 <$> ((fun r : Row => r !! value)
                           <$> filter (fun r : Row => kf r = g) l))) <$> gs).
  { unfold gs. clear Hnd Hcover Hgs gs.
    induction Hall as [|e agg He _ IH]; [done|].
    rewrite !fmap_cons, IH. f_equal.
    by apply series_sum_OK in He as [_ ->]. }
  rewrite Hsnd, (zsum_groups kf value gs l Hgs).
  rewrite (filter_ext_elem (fun r : Row => is_Some (kf r))
             (fun r : Row => kf r ∈ gs) l).
  2:{ intros r Hr. unfold gs. split.
      - intros [k Hk]. rewrite Hk. apply list_elem_of_fmap_2. eauto.
      - intros (k & -> & _)%list_elem_of_fmap. eauto. }
  rewrite series_sum_alt.
  replace (forallb numeric ((fun r : Row => r !! value)
             <$> filter (fun r : Row => kf r ∈ gs) l))
    with true; [done|].
  symmetry. apply forallb_forall. intros v Hv.
  apply list_elem_of_In, list_elem_of_fmap in Hv as (r & -> & Hr).
  apply list_elem_of_filter in Hr as [Hg Hr].
  unfold gs in Hg. apply list_elem_of_fmap in Hg as (k & Hk & Hin).
  apply list_elem_of_fmap in Hin as (e & -> & He).
  rewrite Forall_forall in Hall. specialize (Hall e He).
  apply series_sum_OK in Hall as [Hnum _].
  rewrite forallb_forall in Hnum. apply Hnum.
  apply list_elem_of_In, list_elem_of_fmap. exists r. split; [done|].
  by apply list_elem_of_filter.
Qed.

(** X15.  The monthly buckets add up to the sum of the value column over
    the dated rows of the view, and the quarterly totals to its sum over
    the rows that have both a year and a quarter: a row is counted in one
    bucket only, and only a row without a date is left out. *)
Theorem time_buckets_conserve df :
  (forall monthly,
     monthly_buckets df = OK monthly ->
     series_sum ((fun r : Row => r !! amount_first df)
                   <$> filter (fun r : Row => is_Some (r !! "_primary_date"))
                         (rows df))
     = OK (zsum (snd <$> monthly)))
  /\ (forall quarterly,
        quarterly_table df = OK quarterly ->
        series_sum ((fun r : Row => r !! amount_first df)
                      <$> filter (fun r : Row => is_Some (year_quarter r))
                            (rows df))
        = OK (zsum (snd <$> quarterly))).
Proof.
  split.
  - intros monthly H.
    destruct (monthly_buckets_inv df monthly H) as (ym & Hym & Hkeys & Hsums).
    assert (Hnd : NoDup (fst <$> monthly)).
    { rewrite Hkeys, merge_sort_Permutation. apply NoDup_unique. }
    rewrite (filter_ext_elem
               (fun r : Row => is_Some (r !! "_primary_date"))
               (fun r : Row => is_Some (month_of r)) (rows df)).
    2:{ intros r Hr. split.
        - intros Hd.
          assert (Hin : r ∈ filter (fun r : Row =>
                                      is_Some (r !! "_primary_date"))
                              (rows df)) by (by apply list_elem_of_filter).
          apply list_elem_of_lookup in Hin as [i Hi].
          destruct (Forall2_lookup_l _ _ _ _ _ Hym Hi) as (p & _ & Hp).
          eauto.
        - intros [m Hm]. by eapply month_of_dated. }
    apply (grouped_sums_conserve month_of); [done| |].
    + apply Forall_forall. intros [m total] He.
      apply list_elem_of_lookup in He as [i Hi].
      destruct (Forall2_lookup_r _ _ _ _ _ Hsums Hi) as (m' & _ & Hm').
      unfold month_sum in Hm'. inv_bind Hm'. injection Hm' as -> <-.
      rewrite month_rows_filter in Ha. exact Ha.
    + intros r m Hr Hm. apply (monthly_keys_spec df monthly m H). eauto.
  - intros quarterly H.
    apply (grouped_sums_conserve year_quarter).
    + by eapply NoDup_quarterly_keys.
    + apply Forall_forall. intros [g total] He.
      by apply (quarterly_table_entry df quarterly g total H).
    + intros r g Hr Hg. apply (elem_of_quarterly_keys df quarterly g H). eauto.
Qed.

Lemma time_buckets_conserve_witness :
  series_sum ((fun r : Row => r !! amount_first four_orders)
                <$> filter (fun r : Row => is_Some (r !! "_primary_date"))
                      (rows four_orders))
  = OK (zsum (snd <$> [((2023, 11), 7000); ((2024, 1), 10000);
                       ((2024, 2), 8000)]))
  /\ series_sum ((fun r : Row => r !! amount_first four_orders)
                   <$> filter (fun r : Row => is_Some (year_quarter r))
                         (rows four_orders))
     = OK (zsum (snd <$> [(VNum 2023, VNum 4, 7000);
                          (VNum 2024, VNum 1, 18000)])).
Proof.
  destruct (time_buckets_conserve four_orders) as [Hm Hq]. split.
  - apply Hm. vm_compute. reflexivity.
  - apply Hq. vm_compute. reflexivity.
Defined.

(** ** The geometry of the quarterly clusters *)

Lemma inject_nat_lt (i n : nat) :
  (i < n)%nat -> (inject_Z (Z.of_nat i) + 1 <= inject_Z (Z.of_nat n))%Q.
Proof.
  intros H. replace 1%Q with (inject_Z 1) by done.
  rewrite <- inject_Z_plus, <- Zle_Qle. lia.
Qed.

Lemma inject_nat_nonneg (i : nat) : (0 <= inject_Z (Z.of_nat i))%Q.
Proof. replace 0%Q with (inject_Z 0) by done. rewrite <- Zle_Qle. lia. Qed.

Lemma cluster_width_spec (n : nat) :
  (1 < n)%nat ->
  (cluster_width n * inject_Z (Z.of_nat n) == 8 # 10)%Q
  /\ (0 < cluster_width n)%Q.
Proof.
  intros Hn. unfold cluster_width.
  destruct (Nat.ltb_spec 1 n) as [_|?]; [|lia].
  pose proof (inject_nat_lt 1 n Hn) as Hq.
  change (inject_Z (Z.of_nat 1)) with 1%Q in Hq.
  set (q := inject_Z (Z.of_nat n)) in *.
  assert (Hq0 : (0 < q)%Q) by lra.
  split.
  - field. lra.
  - apply Qlt_shift_div_l; lra.
Qed.

(** X16.  In the quarterly chart the bars of the years stand side by side
    around the tick of their quarter: the bar of each year starts where
    the bar of the year before ends, the offsets are symmetric about the
    tick, and no bar reaches further than 0.4 from it, so that the bars of
    neighbouring quarters, one unit apart, cannot overlap. *)
Theorem year_clusters_fit (n i : nat) :
  (i < n)%nat ->
  let w := cluster_width n in
  let o := cluster_offset n i in
  (0 < w)%Q
  /\ (- (4 # 10) <= o - w / 2)%Q
  /\ (o + w / 2 <= 4 # 10)%Q
  /\ ((S i < n)%nat -> (cluster_offset n (S i) - w / 2 == o + w / 2)%Q)
  /\ (o + cluster_offset n (n - 1 - i) == 0)%Q.
Proof.
  intros Hi w o.
  destruct (decide (n = 1%nat)) as [->|Hn].
  { assert (i = 0%nat) as -> by lia. vm_compute. repeat split; try done; lia. }
  assert (Hn1 : (1 < n)%nat) by lia.
  destruct (cluster_width_spec n Hn1) as [Hw Hpos]. fold w in Hw, Hpos.
  pose proof (inject_nat_lt i n Hi) as Hin.
  pose proof (inject_nat_nonneg i) as Hi0.
  assert (Ho : forall j : nat,
             (cluster_offset n j
              == (inject_Z (Z.of_nat j) - inject_Z (Z.of_nat n) / 2 + (1 # 2))
                 * w)%Q).
  { intros j. unfold cluster_offset.
    destruct (Nat.ltb_spec 1 n) as [_|?]; [|lia]. reflexivity. }
  assert (Hx : (0 <= inject_Z (Z.of_nat i) * w)%Q)
    by (apply Qmult_le_0_compat; lra).
  assert (Hx1 : ((inject_Z (Z.of_nat i) + 1) * w
                 <= inject_Z (Z.of_nat n) * w)%Q)
    by (apply Qmult_le_compat_r; lra).
  split; [done|]. unfold o. rewrite !Ho.
  split.
  { setoid_replace ((inject_Z (Z.of_nat i) - inject_Z (Z.of_nat n) / 2
                     + (1 # 2)) * w - w / 2)%Q
      with (inject_Z (Z.of_nat i) * w
            - (w * inject_Z (Z.of_nat n)) / 2)%Q using relation Qeq by field.
    rewrite Hw. revert Hx. generalize (inject_Z (Z.of_nat i) * w)%Q.
    intros p Hp. unfold Qdiv. change (/ 2)%Q with (1 # 2)%Q. lra. }
  split.
  { setoid_replace ((inject_Z (Z.of_nat i) - inject_Z (Z.of_nat n) / 2
                     + (1 # 2)) * w + w / 2)%Q
      with ((inject_Z (Z.of_nat i) + 1) * w
            - (w * inject_Z (Z.of_nat n)) / 2)%Q using relation Qeq by field.
    setoid_replace (inject_Z (Z.of_nat n) * w)%Q
      with (w * inject_Z (Z.of_nat n))%Q using relation Qeq in Hx1 by ring.
    rewrite Hw in *. revert Hx1.
    generalize ((inject_Z (Z.of_nat i) + 1) * w)%Q.
    intros p Hp. unfold Qdiv. change (/ 2)%Q with (1 # 2)%Q. lra. }
  split.
  - intros _. replace (Z.of_nat (S i)) with (Z.of_nat i + 1) by lia.
    rewrite inject_Z_plus. change (inject_Z 1) with 1%Q. field.
  - replace (Z.of_nat (n - 1 - i)) with (Z.of_nat n + - (1) + - Z.of_nat i)
      by lia.
    rewrite !inject_Z_plus, !inject_Z_opp.
    change (inject_Z 1) with 1%Q. field.
Qed.

Lemma year_clusters_fit_witness :
  let w := cluster_width 3 in
  let o := cluster_offset 3 1 in
  (0 < w)%Q
  /\ (- (4 # 10) <= o - w / 2)%Q
  /\ (o + w / 2 <= 4 # 10)%Q
  /\ ((2 < 3)%nat -> (cluster_offset 3 2 - w / 2 == o + w / 2)%Q)
  /\ (o + cluster_offset 3 (3 - 1 - 1) == 0)%Q.
Proof. apply (year_clusters_fit 3 1). lia. Defined.

(** ** One run of the page *)

Lemma normalize_has_region td raw df :
  normalize td raw = OK df -> has_column "region" df = true.
Proof.
  unfold normalize. intros H. do 2 inv_bind H.
  eapply has_column_resolve_quantity_mono; [exact H|].
  eapply has_column_resolve_amount_mono; [exact Ha0|].
  apply has_column_resolve_dates_mono.
  unfold resolve_region in Ha. do 2 inv_bind Ha. injection Ha as <-.
  apply has_column_set_col_eq.
Qed.

(** Every row of a view of a loaded frame has a region. *)
Lemma view_rows_have_region td src ui df view :
  load_data td src = Frame df ->
  sidebar_filters ui df = OK view ->
  columns view = columns df
  /\ has_column "region" view = true
  /\ Forall (fun r : Row => is_Some (r !! "region")) (rows view).
Proof.
  intros Hload Hview.
  apply load_data_Frame in Hload as (raw & -> & Hn).
  destruct (sidebar_filters_rows _ _ _ Hview)
    as (sy & sr & sp & _ & _ & _ & Hcols & Hrows).
  split; [done|]. split.
  - rewrite (has_column_sub _ df view Hcols). by eapply normalize_has_region.
  - apply normalize_region in Hn as [_ Hcol].
    assert (Hall : Forall (fun r : Row => is_Some (r !! "region")) (rows df)).
    { apply (Forall_column is_Some). rewrite Hcol.
      apply Forall_fmap, Forall_true. intros r. simpl. by eexists. }
    rewrite Hrows. apply Forall_forall. intros r Hr.
    apply list_elem_of_filter in Hr as [_ Hr].
    rewrite Forall_forall in Hall. by apply Hall.
Qed.

(** What a run that renders the page went through. *)
Lemma main_Rendered td src ui n page :
  main td src ui n = OK (Rendered page) ->
  exists df view,
    load_data td src = Frame df
    /\ sidebar_filters ui df = OK view
    /\ metric_sum "_amount" view = OK (total_amount page)
    /\ metric_sum "_quantity" view = OK (total_quantity page)
    /\ plot_regional_gradient_bars view = OK (regional_figure page)
    /\ region_table view = OK (regional_table page)
    /\ plot_top_products view n = OK (product_figure page)
    /\ plot_monthly_trend view = OK (trend_figure page)
    /\ plot_quarterly_comparison view = OK (quarterly_figure page)
    /\ plot_rose_chart view = OK (rose_figure page)
    /\ total_records page = length (rows view)
    /\ raw_preview page = take preview_rows (rows view).
Proof.
  unfold main. destruct (load_data td src) as [df|e]; [|discriminate].
  intros H. do 9 inv_bind H. injection H as <-.
  exists df, a. simpl. repeat split; done.
Qed.


Lemma metric_sum_empty c df :
  rows df = [] ->
  metric_sum c df = OK (if has_column c df then Some 0 else None).
Proof.
  intros Hrows. unfold metric_sum, get_col, column.
  destruct (has_column c df); [|done]. by rewrite Hrows.
Qed.

(** X18.  When the selections of the sidebar leave no row, the run raises
    ValueError in the regional tab: no tab is rendered, not even the
    charts that have an outcome for a view without data. *)
Theorem main_on_empty_view td src ui n df view :
  load_data td src = Frame df ->
  sidebar_filters ui df = OK view ->
  rows view = [] ->
  has_column "_quantity" df || has_column "_amount" df = true ->
  main td src ui n = Raise ValueError.
Proof.
  intros Hload Hview Hrows Hval.
  destruct (view_rows_have_region _ _ _ _ _ Hload Hview) as (Hc & Hreg & _).
  unfold main. rewrite Hload, Hview. cbn [rbind].
  rewrite !metric_sum_empty by done. cbn [rbind].
  rewrite regional_bars_empty_view; [done..|].
  unfold quantity_first. rewrite !(has_column_sub _ df view Hc).
  destruct (has_column "_quantity" df) eqn:Hq; [by rewrite Hq|].
  by rewrite orb_false_l in Hval.
Qed.

Lemma main_on_empty_view_witness :
  main day_parse (OK four_orders)
    {| pick_years := Some [Some (VNum 2023)];
       pick_regions := Some [Some (VStr "华南")];
       pick_products := None |} 10
  = Raise ValueError.
Proof.
  apply (main_on_empty_view day_parse (OK four_orders) _ 10
           (frame_of (load_data day_parse (OK four_orders)))
           (result_frame
              (sidebar_filters
                 {| pick_years := Some [Some (VNum 2023)];
                    pick_regions := Some [Some (VStr "华南")];
                    pick_products := None |}
                 (frame_of (load_data day_parse (OK four_orders))))));
    vm_compute; reflexivity.
Defined.

(** X19.  A table without any amount, quantity or unit-price column loads,
    but the frame has no value column and the run raises KeyError in the
    regional tab, whatever the sidebar selects. *)
Theorem main_without_value_column td src ui n df view :
  load_data td src = Frame df ->
  sidebar_filters ui df = OK view ->
  has_column "_quantity" df = false ->
  has_column "_amount" df = false ->
  main td src ui n = Raise (KeyError "_amount").
Proof.
  intros Hload Hview Hq Ha.
  destruct (view_rows_have_region _ _ _ _ _ Hload Hview) as (Hc & Hreg & _).
  unfold main. rewrite Hload, Hview. cbn [rbind].
  unfold metric_sum. rewrite !(has_column_sub _ df view Hc), Hq, Ha.
  cbn [rbind].
  unfold plot_regional_gradient_bars, region_stats, groupby_sum,
    quantity_first, get_col.
  rewrite Hreg, !(has_column_sub _ df view Hc), Hq, Ha. done.
Qed.

Lemma main_without_value_column_witness :
  main no_parse (OK addresses_only) untouched 10 = Raise (KeyError "_amount").
Proof.
  apply (main_without_value_column no_parse (OK addresses_only) untouched 10
           (frame_of (load_data no_parse (OK addresses_only)))
           (result_frame
              (sidebar_filters untouched
                 (frame_of (load_data no_parse (OK addresses_only))))));
    vm_compute; reflexivity.
Defined.

(** ** The figures of the page agree *)

Lemma count_split_group {K} `{EqDecision K} (kf : Row -> K) (g : K)
    (gs : list K) (l : list Row) :
  g ∉ gs ->
  length (filter (fun r : Row => kf r ∈ g :: gs) l)
  = (length (filter (fun r : Row => kf r = g) l)
     + length (filter (fun r : Row => kf r ∈ gs) l))%nat.
Proof.
  intros Hg. induction l as [|r l IH]; [done|].
  rewrite !filter_cons.
  destruct (decide (kf r = g)) as [Heq|Hne].
  - rewrite decide_True by (rewrite Heq; apply elem_of_cons; by left).
    rewrite decide_False by (by rewrite Heq).
    cbn [length]. lia.
  - destruct (decide (kf r ∈ gs)) as [Hin|Hnin].
    + rewrite decide_True by (apply elem_of_cons; by right).
      cbn [length]. lia.
    + rewrite decide_False; [done|].
      intros [?|?]%elem_of_cons; done.
Qed.

Lemma count_groups {K} `{EqDecision K} (kf : Row -> K) (gs : list K)
    (l : list Row) :
  NoDup gs ->
  zsum ((fun g : K =>
           Z.of_nat (length (filter (fun r : Row => kf r = g) l))) <$> gs)
  = Z.of_nat (length (filter (fun r : Row => kf r ∈ gs) l)).
Proof.
  induction 1 as [|g gs Hg _ IH].
  - rewrite (filter_none (fun r : Row => kf r ∈ [])); [done|].
    intros r _ Hr. by apply elem_of_nil in Hr.
  - rewrite fmap_cons, (count_split_group kf g gs l Hg).
    unfold zsum in *. cbn [foldr]. rewrite IH. lia.
Qed.

Lemma group_sum_key key value df g p :
  group_sum key value df g = OK p -> fst p = g.
Proof. unfold group_sum. intros H. inv_bind H. by injection H as <-. Qed.

(** The order counts of the groups add up to the number of rows that have
    a key. *)
Lemma groupby_count_total key value df agg :
  groupby_sum key value df = OK agg ->
  zsum ((fun g : Val * Z =>
           Z.of_nat (length (group_rows key (fst g) df))) <$> agg)
  = Z.of_nat (length (filter (fun r : Row => is_Some (r !! key)) (rows df))).
Proof.
  intros H. unfold groupby_sum in H.
  inv_bind H. inv_bind H. inv_bind H.
  apply get_col_OK in Ha as [_ ->]. rename a1 into groups.
  destruct (group_keys_spec key df groups Ha1) as [Hnd Hkeys].
  pose proof (rmapM_keys _ _ _ (group_sum_key key value df) H) as Hfst.
  rewrite (filter_ext_elem (fun r : Row => is_Some (r !! key))
             (fun r : Row => r !! key ∈ groups) (rows df))
    by (intros r Hr; symmetry; by apply Hkeys).
  rewrite <- (count_groups (fun r : Row => r !! key) groups (rows df) Hnd).
  rewrite <- Hfst, <- list_fmap_compose. done.
Qed.

Lemma filter_present_all key df :
  Forall (fun r : Row => is_Some (r !! key)) (rows df) ->
  filter (fun r : Row => is_Some (r !! key)) (rows df) = rows df.
Proof. apply filter_all. Qed.

Lemma metric_sum_Some c df total :
  metric_sum c df = OK (Some total) ->
  has_column c df = true /\ series_sum (column c df) = OK total.
Proof.
  unfold metric_sum, get_col. destruct (has_column c df); [|done].
  cbn [rbind]. intros H. inv_bind H. by injection H as <-.
Qed.

Lemma metric_sum_None c df :
  metric_sum c df = OK None -> has_column c df = false.
Proof.
  unfold metric_sum, get_col. destruct (has_column c df); [|done].
  cbn [rbind]. intros H. inv_bind H. discriminate.
Qed.

(** X20.  On a rendered page the figures agree: the order counts of the
    regional table add up to the number of records, its sums add up to
    the total-quantity metric (to the total-amount metric when the frame
    has no quantity), the table has one line for each bar of the regional
    chart, and the preview shows the first 1000 records or all of them. *)
Theorem page_totals_agree td src ui n page :
  main td src ui n = OK (Rendered page) ->
  zsum ((fun e : Val * Z * nat => Z.of_nat (snd e)) <$> regional_table page)
  = Z.of_nat (total_records page)
  /\ (forall q,
        total_quantity page = Some q ->
        zsum ((fun e : Val * Z * nat => snd (fst e)) <$> regional_table page)
        = q)
  /\ (total_quantity page = None ->
      forall a,
        total_amount page = Some a ->
        zsum ((fun e : Val * Z * nat => snd (fst e)) <$> regional_table page)
        = a)
  /\ (exists fig,
        regional_figure page = Drawn fig
        /\ length fig = (101 * length (regional_table page) + 1)%nat)
  /\ length (raw_preview page) = Nat.min 1000 (total_records page).
Proof.
  intros H.
  destruct (main_Rendered _ _ _ _ _ H)
    as (df & view & Hload & Hview & Hamt & Hqty & Hfig & Htab & _ & _ & _ & _
        & Hrec & Hprev).
  destruct (view_rows_have_region _ _ _ _ _ Hload Hview) as (Hc & Hreg & Hall).
  unfold region_table in Htab. inv_bind Htab. injection Htab as Htab.
  rename a into agg, Ha into Hagg.
  assert (Hp : regional_table page ≡ₚ region_row view <$> agg).
  { rewrite <- Htab. apply merge_sort_Permutation. }
  assert (Hsums :
    series_sum (column (quantity_first view) view)
    = OK (zsum ((fun e : Val * Z * nat => snd (fst e))
                  <$> regional_table page))).
  { pose proof (groupby_sum_total _ _ _ _ Hagg) as Ht.
    rewrite (filter_present_all "region" view Hall) in Ht.
    unfold column. rewrite Ht. f_equal. apply zsum_Permutation.
    rewrite Hp, <- list_fmap_compose. done. }
  split; [|split; [|split; [|split]]].
  - rewrite Hrec, <- (filter_present_all "region" view Hall) at 1.
    rewrite <- (groupby_count_total _ _ _ _ Hagg).
    apply zsum_Permutation. rewrite Hp, <- list_fmap_compose. done.
  - intros q Hq. rewrite Hq in Hqty.
    apply metric_sum_Some in Hqty as [Hhas Hsum].
    unfold quantity_first in Hsums. rewrite Hhas, Hsum in Hsums.
    by injection Hsums as <-.
  - intros Hnone a Ha. rewrite Hnone in Hqty. rewrite Ha in Hamt.
    apply metric_sum_None in Hqty.
    apply metric_sum_Some in Hamt as [_ Hsum].
    unfold quantity_first in Hsums. rewrite Hqty, Hsum in Hsums.
    by injection Hsums as <-.
  - assert (Hstats : region_stats view = OK (sort_values_desc agg)).
    { unfold region_stats. by rewrite Hagg. }
    assert (Hlen : length (regional_table page) = length agg).
    { by rewrite Hp, length_fmap. }
    unfold plot_regional_gradient_bars in Hfig. rewrite Hstats in Hfig.
    cbn [rbind] in Hfig. cbv zeta in Hfig.
    do 2 inv_bind Hfig.
    destruct (sort_values_desc agg) as [|top rest] eqn:E; [done|].
    injection Hfig as <-. eexists. split; [reflexivity|].
    assert (Hbars : Forall (fun b : list Artist => length b = 101%nat) a).
    { apply rmapM_Forall2 in Ha. apply Forall_forall. intros b Hb.
      apply list_elem_of_lookup in Hb as [i Hi].
      destruct (Forall2_lookup_r _ _ _ _ _ Ha Hi) as ([j qty] & _ & Hb).
      inv_bind Hb. injection Hb as <-. apply length_gradient_bar. }
    rewrite length_app, (length_concat_uniform 101 a Hbars).
    apply rmapM_Forall2, Forall2_length in Ha.
    rewrite length_imap, length_fmap in Ha. rewrite <- Ha, Hlen.
    rewrite <- E.
    unfold sort_values_desc.
    rewrite (Permutation_length (merge_sort_Permutation _ agg)).
    cbn [length]. lia.
  - rewrite Hprev, length_take, Hrec. unfold preview_rows. lia.
Qed.

Lemma page_totals_agree_witness :
  exists page,
    main day_parse (OK four_orders) untouched 10 = OK (Rendered page)
    /\ zsum ((fun e : Val * Z * nat => Z.of_nat (snd e))
               <$> regional_table page)
       = Z.of_nat (total_records page).
Proof.
  destruct (main day_parse (OK four_orders) untouched 10)
    as [[|page]|e] eqn:E.
  - vm_compute in E. discriminate.
  - exists page. split; [done|].
    apply (page_totals_agree day_parse (OK four_orders) untouched 10 page E).
  - vm_compute in E. discriminate.
Defined.

(** ** The options of the sidebar *)

Lemma sorted_strict l l' :
  Forall is_Some l -> NoDup l -> sorted l = OK l' ->
  StronglySorted (fun a b : Val => py_lt a b = true) l'.
Proof.
  intros Hsome Hnd Hs.
  pose proof (sorted_Permutation _ _ Hs) as Hp.
  unfold sorted in Hs. destruct (same_kind l) eqn:Hk; [|done].
  injection Hs as <-.
  pose proof (proj1 (same_kind_true l) Hk) as Hkind.
  assert (Hin : forall x, x ∈ merge_sort py_le l -> is_Some x /\ x ∈ l).
  { intros x Hx. rewrite Hp in Hx. split; [|done].
    rewrite Forall_forall in Hsome. by apply Hsome. }
  assert (Hss : StronglySorted py_le (merge_sort py_le l)).
  { apply Sorted_StronglySorted_on; [|apply Sorted_merge_sort; apply _].
    intros x y z Hx Hy Hz.
    apply Hin in Hx as [? ?], Hy as [? ?], Hz as [? ?].
    apply py_le_trans; auto. }
  assert (Hnd' : NoDup (merge_sort py_le l)) by (by rewrite Hp).
  revert Hin Hss Hnd'. generalize (merge_sort py_le l). clear Hp.
  induction l0 as [|a l0 IH]; intros Hin Hss Hnd'; [constructor|].
  apply StronglySorted_inv in Hss as [Hss Hall].
  apply NoDup_cons in Hnd' as [Ha Hnd'].
  constructor.
  - apply IH; [|done..]. intros x Hx. apply Hin. apply elem_of_cons. by right.
  - apply Forall_forall. intros b Hb.
    rewrite Forall_forall in Hall. specialize (Hall b Hb).
    destruct (py_lt a b) eqn:Hlt; [done|]. exfalso.
    destruct (Hin a ltac:(apply elem_of_cons; by left)) as [? ?].
    destruct (Hin b ltac:(apply elem_of_cons; by right)) as [? ?].
    assert (a = b) as -> by (apply py_le_antisym; auto).
    done.
Qed.

(** X21.  The values a multiselect of the sidebar offers are the distinct
    values of its column that are not missing, listed in strictly
    ascending order, and the list does not depend on the order of the
    rows.  For the region, whose column is listed without dropping missing
    values, this holds when every row has a region, as every row of a
    loaded frame has. *)
Theorem sidebar_options_sorted D df opts :
  options D df = OK opts ->
  (D = DRegion ->
   Forall (fun r : Row => is_Some (r !! "region")) (rows df)) ->
  StronglySorted (fun a b : Val => py_lt a b = true) opts
  /\ (forall v, v ∈ opts <-> is_Some v /\ v ∈ column (dim_column D) df)
  /\ (forall df',
        columns df' = columns df -> rows df' ≡ₚ rows df ->
        options D df' = OK opts).
Proof.
  intros Hopts Hreg.
  assert (Hdrop : D = DRegion ->
                  dropna (column "region" df) = column "region" df).
  { intros HD. unfold dropna. apply filter_all.
    by apply (Forall_column is_Some), Hreg. }
  assert (Hgen :
    has_column (dim_column D) df = true
    /\ sorted (unique (dropna (column (dim_column D) df))) = OK opts).
  { destruct D; simpl in Hopts |- *.
    - unfold year_options in Hopts. inv_bind Hopts.
      by apply get_col_OK in Ha as [? ->].
    - unfold region_options in Hopts. inv_bind Hopts.
      apply get_col_OK in Ha as [? ->]. by rewrite Hdrop.
    - unfold product_options in Hopts. inv_bind Hopts.
      by apply get_col_OK in Ha as [? ->]. }
  destruct Hgen as [Hhas Hs]. split; [|split].
  - eapply sorted_strict; [| |exact Hs].
    + apply Forall_forall. intros x Hx.
      apply elem_of_unique, elem_of_dropna in Hx. tauto.
    + apply NoDup_unique.
  - intros v. by rewrite (elem_of_sorted _ _ _ Hs), elem_of_unique,
      elem_of_dropna.
  - intros df' Hc Hp.
    assert (Hs' : sorted (unique (dropna (column (dim_column D) df')))
                  = OK opts).
    { rewrite <- Hs. apply group_keys_Permutation.
      by apply column_Permutation. }
    assert (Hhas' : has_column (dim_column D) df' = true)
      by (by rewrite (has_column_sub _ df df' Hc)).
    assert (Hdrop' : D = DRegion ->
                     dropna (column "region" df') = column "region" df').
    { intros HD. unfold dropna. apply filter_all.
      apply (Forall_column is_Some). rewrite Hp. by apply Hreg. }
    destruct D; simpl in Hhas', Hs' |- *.
    + unfold year_options, get_col. by rewrite Hhas'.
    + unfold region_options, get_col. rewrite Hhas'. cbn [rbind].
      by rewrite <- Hdrop'.
    + unfold product_options, get_col. by rewrite Hhas'.
Qed.

Lemma sidebar_options_sorted_witness :
  StronglySorted (fun a b : Val => py_lt a b = true)
    [Some (VStr "华北"); Some (VStr "华南")].
Proof.
  apply (sidebar_options_sorted DRegion four_orders).
  - vm_compute. reflexivity.
  - intros _. decide_by_computation.
Defined.

(** ** The refund fields of a generated order *)

(** X22.  Whatever the random draws, a generated order registers a refund
    of between 0 and the ordered quantity, refunds exactly what it
    registers, registers nothing exactly when there is no refund, and the
    whole quantity for a full refund. *)
Theorem refund_quantities_sound (randint : Z -> Z -> Z) refund_status
    quantity :
  (forall a b, a <= b -> a <= randint a b <= b) ->
  1 <= quantity ->
  refund_status ∈ REFUND_STATUSES ->
  let registered := fst (refund_quantities randint refund_status quantity) in
  let actual := snd (refund_quantities randint refund_status quantity) in
  actual = registered
  /\ 0 <= registered <= quantity
  /\ (registered = 0 <-> refund_status = "无退款")
  /\ (refund_status = "全额退款" -> registered = quantity).
Proof.
  intros Hrand Hq Hin. cbv zeta. unfold refund_quantities.
  pose proof (Hrand 1 quantity Hq) as Hr.
  destruct (decide (refund_status = "无退款")) as [->|Hn].
  { simpl. repeat split; try done; lia. }
  destruct (decide (refund_status = "部分退款")) as [->|Hp].
  { simpl. repeat split; try done; try lia. }
  simpl. repeat split; try done; try lia.
Qed.

Lemma refund_quantities_sound_witness :
  let registered := fst (refund_quantities (fun a _ => a) "部分退款" 3) in
  let actual := snd (refund_quantities (fun a _ => a) "部分退款" 3) in
  actual = registered
  /\ 0 <= registered <= 3
  /\ (registered = 0 <-> "部分退款" = "无退款")
  /\ ("部分退款" = "全额退款" -> registered = 3).
Proof.
  apply (refund_quantities_sound (fun a _ => a) "部分退款" 3).
  - intros a b Hab. lia.
  - lia.
  - decide_by_computation.
Defined.
